(** * LeafLens: the raster views of [LeafCanvas]

    A shallow embedding of the [img.onload] body of the [LeafCanvas]
    component: the clamped pixel access, the luminance helper, the six
    per-pixel filters, the 3x3 neighbourhood filters and the Haar wavelet
    view, together with the properties the specification states about them.

    JavaScript numbers are IEEE 754 binary64 values, modelled by the
    kernel's primitive floats; loop counters, coordinates and buffer
    indices, which are always integers in the source, are modelled in [Z];
    a [Uint8ClampedArray] is a [list Z] of bytes whose stores go through
    the conversion [ToUint8Clamp]. *)

From stdpp Require Import base list.
From Stdlib Require Import ZArith Bool Lia Floats.

Local Open Scope Z_scope.
Set Warnings "-inexact-float".

(** ** The JavaScript runtime *)

Module JS.

(** A byte of a typed array read as a number. *)
Definition Z2F (z : Z) : float := PrimFloat.of_uint63 (Uint63.of_Z z).

(** A signed integer as a number (exact below 2^53). *)
Definition ZtoNumber (z : Z) : float :=
  if z <? 0 then (- Z2F (- z))%float else Z2F z.

Definition is_nan (v : float) : bool := negb (v =? v)%float.

(** [floor] of a number known to lie strictly between 0 and 255, found
    bit by bit from the most significant one. *)
Fixpoint floor_bits (bits : list Z) (acc : Z) (v : float) : Z :=
  match bits with
  | [] => acc
  | b :: bs =>
      if (Z2F (acc + b) <=? v)%float
      then floor_bits bs (acc + b) v
      else floor_bits bs acc v
  end.

Definition floor8 (v : float) : Z :=
  floor_bits [128; 64; 32; 16; 8; 4; 2; 1] 0 v.

(** ECMAScript's ToUint8Clamp, the conversion applied by every store
    into a [Uint8ClampedArray]: NaN becomes 0, the value is clamped to
    [0, 255] and rounded to the nearest integer, ties to even. *)
Definition ToUint8Clamp (v : float) : Z :=
  if is_nan v then 0
  else if (v <=? 0)%float then 0
  else if (255 <=? v)%float then 255
  else
    let f := floor8 v in
    if (Z2F f + 0.5 <? v)%float then f + 1
    else if (v <? Z2F f + 0.5)%float then f
    else if Z.even f then f else f + 1.

(** [arr[i]] on a typed array: a byte, or [undefined] out of range,
    which every arithmetic use turns into NaN. *)
Definition load (arr : list Z) (i : Z) : float :=
  if i <? 0 then nan
  else match arr !! Z.to_nat i with
       | Some b => Z2F b
       | None => nan
       end.

(** [arr[i] = v] on a [Uint8ClampedArray]: ignored out of range. *)
Definition store (arr : list Z) (i : Z) (v : float) : list Z :=
  if i <? 0 then arr else <[Z.to_nat i := ToUint8Clamp v]> arr.

Definition is_neg_zero (v : float) : bool :=
  ((v =? 0) && (1 / v <? 0))%float.

(** [Math.max] and [Math.min] of two numbers: NaN is contagious and
    -0 is below +0. *)
Definition Math_max (a b : float) : float :=
  if is_nan a || is_nan b then nan
  else if (a <? b)%float then b
  else if (b <? a)%float then a
  else if is_neg_zero a then b else a.

Definition Math_min (a b : float) : float :=
  if is_nan a || is_nan b then nan
  else if (a <? b)%float then a
  else if (b <? a)%float then b
  else if is_neg_zero a then a else b.

Definition Math_max3 (a b c : float) : float :=
  Math_max (Math_max a b) c.
Definition Math_min3 (a b c : float) : float :=
  Math_min (Math_min a b) c.

Definition Math_sqrt (v : float) : float := PrimFloat.sqrt v.

(** The integer part of a finite number, rounded down. *)
Definition floorZ (v : float) : option Z :=
  match Prim2SF v with
  | S754_zero _ => Some 0
  | S754_finite s m e =>
      let q := if 0 <=? e then Z.pos m * 2 ^ e
               else Z.pos m / 2 ^ (- e) in
      let exact := if 0 <=? e then true
                   else Z.pos m mod 2 ^ (- e) =? 0 in
      Some (if s then (if exact then - q else - q - 1) else q)
  | _ => None
  end.

(** [Math.floor]: NaN, the infinities, the zeros and the numbers with no
    fractional bits are returned as they are. *)
Definition Math_floor (v : float) : float :=
  match Prim2SF v with
  | S754_finite s m e =>
      if 0 <=? e then v
      else match floorZ v with
           | Some 0 => if s then (-0)%float else 0%float
           | Some n => ZtoNumber n
           | None => v
           end
  | _ => v
  end.

(** [v % 6] for an integral [v], as the [switch] of the direction view
    uses it: the remainder has the sign of the dividend; NaN and the
    infinities give NaN, which matches no [case]. *)
Definition rem6 (v : float) : option Z :=
  match floorZ v with
  | Some n => Some (Z.rem n 6)
  | None => None
  end.

Definition PI : float := 0x1.921fb54442d18p+1%float.

End JS.
Import JS.

(** ** Data model *)

(** The [ViewType] enumeration of [types.ts]. *)
Inductive ViewType : Set :=
  | ORIGINAL | GRAYSCALE | SKELETON | HEATMAP | BLUEPRINT | XRAY | ECO
  | BINARY | HSV | GRADIENT_MAGNITUDE | GRADIENT_DIRECTION | ZERO_CROSSING
  | WAVELET | FEATURE_MAP.

(** An [ImageData] object, also used for the bitmap of the canvas: the
    dimensions and the row-major RGBA bytes. *)
Record ImageData : Set := mkImageData {
  width : Z;
  height : Z;
  data : list Z
}.

(** [ctx.createImageData(width, height)]: transparent black. *)
Definition createImageData (w h : Z) : ImageData :=
  mkImageData w h (replicate (Z.to_nat (w * h * 4)) 0).

(** A well-formed buffer, as [getImageData] returns it. *)
Definition byte (b : Z) : Prop := 0 <= b <= 255.

Record wf (S : ImageData) : Prop := mkWf {
  wf_width : 0 < width S;
  wf_height : 0 < height S;
  wf_length : Z.of_nat (length (data S)) = width S * height S * 4;
  wf_bytes : Forall byte (data S)
}.

(** ** Counted loops *)

(** [for (let i = start; i < stop; i += step) body], threading the state
    the body updates; the fuel bounds the number of iterations. *)
Fixpoint for_loop {A : Type} (fuel : nat) (i stop step : Z)
    (body : Z -> A -> A) (a : A) : A :=
  match fuel with
  | O => a
  | S fuel' =>
      if i <? stop then for_loop fuel' (i + step) stop step body (body i a)
      else a
  end.

(** With a step of at least one, [stop - start] iterations are enough. *)
Definition for_ {A : Type} (start stop step : Z)
    (body : Z -> A -> A) (a : A) : A :=
  for_loop (Z.to_nat (stop - start)) start stop step body a.

(** The successive values of the loop variable. *)
Fixpoint loop_values (fuel : nat) (i stop step : Z) : list Z :=
  match fuel with
  | O => []
  | S fuel' =>
      if i <? stop then i :: loop_values fuel' (i + step) stop step else []
  end.

Definition range (start stop step : Z) : list Z :=
  loop_values (Z.to_nat (stop - start)) start stop step.

(** ** The filters *)

Section Filters.

(** [Math.atan2], which the language leaves to the implementation. *)
Variable atan2 : float -> float -> float.

(** [ctx.drawImage(img, 0, 0)], left to the canvas implementation. *)
Variable drawImage : ImageData -> ImageData -> ImageData.

Section Helpers.

Variables (width height : Z) (data : list Z).

Definition getPixelIndex (x y : Z) : Z :=
  let cx := Z.max 0 (Z.min (width - 1) x) in
  let cy := Z.max 0 (Z.min (height - 1) y) in
  (cy * width + cx) * 4.

Definition getGray (i : Z) : float :=
  (0.299 * load data i + 0.587 * load data (i + 1)
   + 0.114 * load data (i + 2))%float.

End Helpers.

(** *** Per-pixel filters *)

Definition grayscale (avg : float) : float * float * float :=
  (avg, avg, avg).

Definition binary (avg : float) : float * float * float :=
  let threshold := 128%float in
  let val := if (threshold <? avg)%float then 255%float else 0%float in
  (val, val, val).

Definition heatmap (avg : float) : float * float * float :=
  let val := (avg / 255)%float in
  if (val <? 0.5)%float
  then (0, 255 * 2 * val, 255 * (1 - 2 * val))%float
  else (255 * (2 * val - 1), 255 * (2 - 2 * val), 0)%float.

Definition xray (avg : float) : float * float * float :=
  let inverted := (255 - avg)%float in
  let contrast := ((inverted - 128) * 2 + 128)%float in
  (contrast, contrast, contrast).

Definition eco (r g b : float) : float * float * float :=
  (r * 0.8, g * 1.2, b * 0.8)%float.

Definition hsv (r g b : float) : float * float * float :=
  let rN := (r / 255)%float in
  let gN := (g / 255)%float in
  let bN := (b / 255)%float in
  let max := Math_max3 rN gN bN in
  let min := Math_min3 rN gN bN in
  let v := max in
  let d := (max - min)%float in
  let s := if (max =? 0)%float then 0%float else (d / max)%float in
  let h :=
    if negb (max =? min)%float then
      ((if (max =? rN)%float
        then (gN - bN) / d + (if (gN <? bN)%float then 6 else 0)
        else if (max =? gN)%float then (bN - rN) / d + 2
        else if (max =? bN)%float then (rN - gN) / d + 4
        else 0) / 6)%float
    else 0%float in
  (h * 255, s * 255, v * 255)%float.

(** The colour a per-pixel view gives to a source pixel. *)
Definition pointColor (type : ViewType) (r g b : float)
    : float * float * float :=
  let avg := (0.299 * r + 0.587 * g + 0.114 * b)%float in
  match type with
  | GRAYSCALE => grayscale avg
  | BINARY => binary avg
  | HEATMAP => heatmap avg
  | XRAY => xray avg
  | ECO => eco r g b
  | HSV => hsv r g b
  | _ => (r, g, b)
  end.

(** [data[i] = r; data[i + 1] = g; data[i + 2] = b]. *)
Definition store3 (arr : list Z) (i : Z) (c : float * float * float)
    : list Z :=
  let '(r, g, b) := c in
  store (store (store arr i r) (i + 1) g) (i + 2) b.

(** One iteration of the per-pixel loop, on the array it updates in
    place; the alpha byte at [i + 3] is never assigned. *)
Definition pointBody (type : ViewType) (i : Z) (data : list Z) : list Z :=
  let r := load data i in
  let g := load data (i + 1) in
  let b := load data (i + 2) in
  store3 data i (pointColor type r g b).

Definition pointFilter (type : ViewType) (data : list Z) : list Z :=
  for_ 0 (Z.of_nat (length data)) 4 (pointBody type) data.

(** *** The wavelet view *)

(** The four Haar coefficients of a 2x2 block. *)
Definition haar (p1 p2 p3 p4 : float) : float * float * float * float :=
  let LL := ((p1 + p2 + p3 + p4) / 4)%float in
  let LH := ((p1 + p2 - p3 - p4) / 4 + 128)%float in
  let HL := ((p1 - p2 + p3 - p4) / 4 + 128)%float in
  let HH := ((p1 - p2 - p3 + p4) / 4 + 128)%float in
  (LL, LH, HL, HH).

(** [output[idx] = output[idx+1] = output[idx+2] = v; output[idx+3] = 255]:
    the chained assignment stores from right to left. *)
Definition storeGray (output : list Z) (idx : Z) (v : float) : list Z :=
  store (store (store (store output (idx + 2) v) (idx + 1) v) idx v)
    (idx + 3) 255.

(** Where the block at [(x, y)] writes its coefficients.  [x] and [y]
    are even in the loop, so [x / 2] and [y / 2] are exact. *)
Definition idxLL (width height x y : Z) : Z :=
  (y / 2 * width + x / 2) * 4.
Definition idxLH (width height x y : Z) : Z :=
  (y / 2 * width + (x / 2 + width / 2)) * 4.
Definition idxHL (width height x y : Z) : Z :=
  ((y / 2 + height / 2) * width + x / 2) * 4.
Definition idxHH (width height x y : Z) : Z :=
  ((y / 2 + height / 2) * width + (x / 2 + width / 2)) * 4.

Definition waveletBody (width height : Z) (data : list Z) (x y : Z)
    (output : list Z) : list Z :=
  let i1 := getPixelIndex width height x y in
  let i2 := getPixelIndex width height (x + 1) y in
  let i3 := getPixelIndex width height x (y + 1) in
  let i4 := getPixelIndex width height (x + 1) (y + 1) in
  let p1 := getGray data i1 in
  let p2 := getGray data i2 in
  let p3 := getGray data i3 in
  let p4 := getGray data i4 in
  let '(LL, LH, HL, HH) := haar p1 p2 p3 p4 in
  let output := storeGray output (idxLL width height x y) LL in
  let output := storeGray output (idxLH width height x y) LH in
  let output := storeGray output (idxHL width height x y) HL in
  storeGray output (idxHH width height x y) HH.

Definition wavelet (width height : Z) (data output : list Z) : list Z :=
  for_ 0 height 2 (fun y =>
    for_ 0 width 2 (fun x => waveletBody width height data x y)) output.

(** *** The 3x3 neighbourhood views *)

(** [output[idx] = r; output[idx+1] = g; output[idx+2] = b;
    output[idx+3] = 255]. *)
Definition storePixel (output : list Z) (idx : Z)
    (c : float * float * float) : list Z :=
  store (store3 output idx c) (idx + 3) 255.

Section Neighbourhood.

Variables (width height : Z) (data : list Z).

Abbreviation gray x y := (getGray data (getPixelIndex width height x y)).

(** The local variance of the luminance over the 3x3 window. *)
Definition featureMap (x y : Z) : float * float * float :=
  let '(sum, sqSum, count) :=
    for_ (-1) 2 1 (fun ky =>
      for_ (-1) 2 1 (fun kx '(sum, sqSum, count) =>
        let val := gray (x + kx) (y + ky) in
        (sum + val, sqSum + val * val, count + 1)%float))
      (0, 0, 0)%float in
  let mean := (sum / count)%float in
  let variance := (sqSum / count - mean * mean)%float in
  let displayVal := Math_min 255 (Math_sqrt variance * 4)%float in
  (displayVal, displayVal * 0.8, 255 - displayVal)%float.

Definition laplacian (x y : Z) : float :=
  let n := gray x (y - 1) in
  let w := gray (x - 1) y in
  let c := gray x y in
  let e := gray (x + 1) y in
  let s := gray x (y + 1) in
  (n + w + e + s - 4 * c)%float.

Definition zeroCrossing (x y : Z) : float * float * float :=
  let val := (128 + laplacian x y * 2)%float in
  let val := Math_max 0 (Math_min 255 val) in
  (val, val, val).

(** The Sobel responses [(gx, gy)]. *)
Definition sobel (x y : Z) : float * float :=
  let iTopLeft := gray (x - 1) (y - 1) in
  let iTop := gray x (y - 1) in
  let iTopRight := gray (x + 1) (y - 1) in
  let iLeft := gray (x - 1) y in
  let iRight := gray (x + 1) y in
  let iBottomLeft := gray (x - 1) (y + 1) in
  let iBottom := gray x (y + 1) in
  let iBottomRight := gray (x + 1) (y + 1) in
  let gx := ((-1) * iTopLeft + 1 * iTopRight + (-2) * iLeft + 2 * iRight
             + (-1) * iBottomLeft + 1 * iBottomRight)%float in
  let gy := ((-1) * iTopLeft + (-2) * iTop + (-1) * iTopRight
             + 1 * iBottomLeft + 2 * iBottom + 1 * iBottomRight)%float in
  (gx, gy).

Definition magnitude (x y : Z) : float :=
  let '(gx, gy) := sobel x y in
  Math_sqrt (gx * gx + gy * gy)%float.

Definition skeleton (x y : Z) : float * float * float :=
  let magnitude := magnitude x y in
  let val := if (50 <? magnitude)%float then magnitude else 0%float in
  (val, val, val).

Definition blueprint (x y : Z) : float * float * float :=
  let magnitude := magnitude x y in
  let val := if (30 <? magnitude)%float then 255%float else 0%float in
  if (0 <? val)%float then (255, 255, 255)%float
  else (30, 64, 175)%float.

Definition gradientMagnitude (x y : Z) : float * float * float :=
  let magnitude := magnitude x y in
  (magnitude, magnitude, magnitude).

Definition gradientDirection (x y : Z) : float * float * float :=
  let '(gx, gy) := sobel x y in
  let angle := atan2 gy gx in
  let normalizedAngle := ((angle + PI) / (2 * PI))%float in
  let s := 1%float in
  let v := 1%float in
  let iH := Math_floor (normalizedAngle * 6)%float in
  let f := (normalizedAngle * 6 - iH)%float in
  let p := (v * (1 - s))%float in
  let q := (v * (1 - f * s))%float in
  let t := (v * (1 - (1 - f) * s))%float in
  let '(r, g, b) :=
    match rem6 iH with
    | Some 0 => (v, t, p)
    | Some 1 => (q, v, p)
    | Some 2 => (p, v, t)
    | Some 3 => (p, q, v)
    | Some 4 => (t, p, v)
    | Some 5 => (v, p, q)
    | _ => (0, 0, 0)%float
    end in
  let magnitude := Math_sqrt (gx * gx + gy * gy)%float in
  let '(r, g, b) :=
    if (magnitude <? 20)%float then (0, 0, 0)%float else (r, g, b) in
  (r * 255, g * 255, b * 255)%float.

(** The colour a neighbourhood view gives to the pixel [(x, y)]. *)
Definition convColor (type : ViewType) (x y : Z)
    : float * float * float :=
  match type with
  | FEATURE_MAP => featureMap x y
  | ZERO_CROSSING => zeroCrossing x y
  | SKELETON => skeleton x y
  | BLUEPRINT => blueprint x y
  | GRADIENT_DIRECTION => gradientDirection x y
  | _ => gradientMagnitude x y
  end.

Definition convBody (type : ViewType) (x y : Z) (output : list Z)
    : list Z :=
  let idx := (y * width + x) * 4 in
  storePixel output idx (convColor type x y).

Definition conv (type : ViewType) (output : list Z) : list Z :=
  for_ 0 height 1 (fun y =>
    for_ 0 width 1 (fun x => convBody type x y)) output.

End Neighbourhood.

(** *** The dispatch *)

(** The views of the "simple per-pixel filters" branch. *)
Definition perPixel (type : ViewType) : bool :=
  match type with
  | GRAYSCALE | HEATMAP | XRAY | ECO | BINARY | HSV => true
  | _ => false
  end.

(** The views of the "convolution / structural filters" branch. *)
Definition structural (type : ViewType) : bool :=
  match type with
  | SKELETON | BLUEPRINT | GRADIENT_MAGNITUDE | GRADIENT_DIRECTION
  | ZERO_CROSSING | FEATURE_MAP | WAVELET => true
  | _ => false
  end.

(** The body of [img.onload] once the image is drawn: [S] is the bitmap
    of the canvas, read by [getImageData]; the result is the bitmap that
    [putImageData] leaves (the bitmap itself for [ORIGINAL], which
    returns before reading it). *)
Definition render (S : ImageData) (type : ViewType) : ImageData :=
  let width := width S in
  let height := height S in
  match type with
  | ORIGINAL => S
  | _ =>
      if perPixel type then
        mkImageData width height (pointFilter type (data S))
      else if structural type then
        let output := data (createImageData width height) in
        match type with
        | WAVELET =>
            mkImageData width height (wavelet width height (data S) output)
        | _ =>
            mkImageData width height (conv width height (data S) type output)
        end
      else S
  end.

(** [img.onload] on a canvas in any state: assigning the dimensions
    clears the bitmap, the image is drawn, and the view is rendered. *)
Definition onload (img : ImageData) (type : ViewType)
    (canvas : ImageData) : ImageData :=
  let canvas := createImageData (width img) (height canvas) in
  let canvas := createImageData (width canvas) (height img) in
  let canvas := drawImage img canvas in
  render canvas type.

End Filters.


(** ** Sample inputs *)

(** A stand-in for [Math.atan2] and for [drawImage] where a concrete run is
    needed; no view but the direction map calls the former. *)
Definition atan2_const (y x : float) : float := 0%float.
Definition drawImage_copy (img canvas : ImageData) : ImageData := img.

(** A 1x1 translucent pixel and a 2x2 image with an edge. *)
Definition pixel1 : ImageData := mkImageData 1 1 [10; 20; 30; 100].
Definition image2 : ImageData :=
  mkImageData 2 2
    [100; 100; 100; 7; 150; 150; 150; 8; 50; 50; 50; 9; 200; 200; 200; 10].
Definition image3 : ImageData :=
  mkImageData 3 1 [100; 100; 100; 255; 150; 150; 150; 255; 50; 50; 50; 255].

(** A 3x2 image. *)
Definition image3_tall : ImageData :=
  mkImageData 3 2
    [100; 100; 100; 255; 150; 150; 150; 255; 50; 50; 50; 255;
     20; 20; 20; 255; 40; 40; 40; 255; 60; 60; 60; 255].

(** [image2] with every pixel opaque. *)
Definition image2_opaque : ImageData :=
  mkImageData 2 2
    [100; 100; 100; 255; 150; 150; 150; 255;
     50; 50; 50; 255; 200; 200; 200; 255].

(** ** Vocabulary of the properties *)

(** The byte at the offset [i] of a buffer. *)
Definition get (arr : list Z) (i : Z) : option Z := arr !! Z.to_nat i.

(** The byte of channel [c] of the pixel [(x, y)]. *)
Definition channel (S : ImageData) (x y c : Z) : option Z :=
  get (data S) ((y * width S + x) * 4 + c).

(** All pixels of [S] have the colour [(r, g, b)]. *)
Definition uniform (S : ImageData) (r g b : Z) : Prop :=
  forall x y, 0 <= x < width S -> 0 <= y < height S ->
    channel S x y 0 = Some r /\ channel S x y 1 = Some g /\
    channel S x y 2 = Some b.

(** The pixel stored at byte offset [idx] is the opaque colour [c]. *)
Definition pixel_is (out : list Z) (idx : Z) (c : float * float * float)
    : Prop :=
  get out idx = Some (ToUint8Clamp c.1.1) /\
  get out (idx + 1) = Some (ToUint8Clamp c.1.2) /\
  get out (idx + 2) = Some (ToUint8Clamp c.2) /\
  get out (idx + 3) = Some 255.

(** The block and the quadrant that write the pixel [(col, row)]. *)
Definition blockOf (size c : Z) : Z :=
  if c <=? (size - 1) / 2 then 2 * c else 2 * (c - size / 2).

(** [sampleClamped]'s clamp in the specification's words: a coordinate
    below the range is pulled to its lower end, one above to its upper
    end, and one inside is kept. *)
Definition clampTo (lo hi v : Z) : Z :=
  if v <? lo then lo else if hi <? v then hi else v.

(** The bytes a colour is stored as. *)
Definition stored (c : float * float * float) : Z * Z * Z :=
  (ToUint8Clamp c.1.1, ToUint8Clamp c.1.2, ToUint8Clamp c.2).

(** Green strictly above red and blue. *)
Definition greenDominant (c : Z * Z * Z) : Prop :=
  c.1.1 < c.1.2 /\ c.2 < c.1.2.

(** The luminance of the colour [(r, g, b)]. *)
Definition luminance (r g b : Z) : float :=
  (0.299 * Z2F r + 0.587 * Z2F g + 0.114 * Z2F b)%float.

(** The Sobel magnitude and the zero-crossing value where the nine
    luminances of the window are the same number [g]. *)
Definition flatMagnitude (g : float) : float :=
  let gx := ((-1) * g + 1 * g + (-2) * g + 2 * g + (-1) * g + 1 * g)%float in
  let gy := ((-1) * g + (-2) * g + (-1) * g + 1 * g + 2 * g + 1 * g)%float in
  Math_sqrt (gx * gx + gy * gy)%float.

Definition flatZeroCrossing (g : float) : float :=
  let val := (128 + (g + g + g + g - 4 * g) * 2)%float in
  Math_max 0 (Math_min 255 val).

(** The check of a flat window: the magnitude rounds to the byte 0 and the
    zero-crossing value is 128. *)
Definition flat_ok (g : float) : bool :=
  ((flatMagnitude g <? 0.5) && (flatZeroCrossing g =? 128))%float.

Definition byteNumbers : list float :=
  map (fun n => Z2F (Z.of_nat n)) (seq 0 256).

(** The check over the luminance of every colour. *)
Definition flat_all : bool :=
  forallb (fun r =>
    forallb (fun g =>
      forallb (fun b => flat_ok (0.299 * r + 0.587 * g + 0.114 * b)%float)
        byteNumbers) byteNumbers) byteNumbers.

(** The colour bytes of the pixel [(x, y)]. *)
Definition rgbAt (S : ImageData) (x y : Z) : option (Z * Z * Z) :=
  match channel S x y 0, channel S x y 1, channel S x y 2 with
  | Some r, Some g, Some b => Some (r, g, b)
  | _, _, _ => None
  end.

(** The views that store one value on the three colour channels. *)
Definition achromatic (type : ViewType) : bool :=
  match type with
  | GRAYSCALE | BINARY | XRAY | SKELETON | GRADIENT_MAGNITUDE
  | ZERO_CROSSING | WAVELET => true
  | _ => false
  end.

(** The bytes 0 to 255. *)
Definition bytesZ : list Z := map Z.of_nat (seq 0 256).

(** Checks over every byte: the tint of the eco view in integers, the
    grey view and the HSV view of a grey pixel, and the value channel of
    the HSV view. *)
Definition eco_ok (v : Z) : bool :=
  (ToUint8Clamp (Z2F v * 0.8) =? (8 * v + 5) / 10)
  && (ToUint8Clamp (Z2F v * 1.2) =? Z.min 255 ((12 * v + 5) / 10)).

Definition gray_fixed_ok (v : Z) : bool :=
  match stored (pointColor GRAYSCALE (Z2F v) (Z2F v) (Z2F v)) with
  | (r, g, b) => (r =? v) && (g =? v) && (b =? v)
  end.

Definition hsv_gray_ok (v : Z) : bool :=
  match stored (pointColor HSV (Z2F v) (Z2F v) (Z2F v)) with
  | (r, g, b) => (r =? 0) && (g =? 0) && (b =? v)
  end.

(** The luminance of the source pixel [(x, y)], read without clamping. *)
Definition grayAt (S : ImageData) (x y : Z) : float :=
  getGray (data S) ((y * width S + x) * 4).

(** The colour bytes of a pixel stored as the grey [v]. *)
Definition greyPixel (v : float) : option (Z * Z * Z) :=
  Some (ToUint8Clamp v, ToUint8Clamp v, ToUint8Clamp v).

(** Checks for the value channel of the HSV view: the largest of two
    normalised bytes is the normalised largest byte, and a normalised
    byte scaled back is stored as the byte itself. *)
Definition max_ok (a b : Z) : bool :=
  PrimFloat.Leibniz.eqb (Math_max (Z2F a / 255) (Z2F b / 255))
    (Z2F (Z.max a b) / 255).

Definition value_ok (v : Z) : bool :=
  ToUint8Clamp (Z2F v / 255 * 255) =? v.

(** The four coefficients of the block whose corner is [(x, y)], from the
    four clamped reads of the loop body. *)
Definition blockCoefficients (w h : Z) (d : list Z) (x y : Z)
    : float * float * float * float :=
  haar (getGray d (getPixelIndex w h x y))
       (getGray d (getPixelIndex w h (x + 1) y))
       (getGray d (getPixelIndex w h x (y + 1)))
       (getGray d (getPixelIndex w h (x + 1) (y + 1))).

(** ** Facts on binary64 comparisons *)

Section FloatFacts.

Lemma SFcompare_antisym (x y : spec_float) (c : comparison) :
  SFcompare x y = Some c -> SFcompare y x = Some (CompOpp c).
Proof.
  destruct x as [[]|[]| |[] mx ex], y as [[]|[]| |[] my ey];
    simpl; intros H; inversion H; clear H; subst; try reflexivity;
    rewrite (Z.compare_antisym ex ey);
    destruct (ex ?= ey)%Z; simpl; try reflexivity;
    change (Pos.compare_cont Eq ?a ?b) with (Pos.compare a b);
    rewrite (Pos.compare_antisym mx my);
    destruct (Pos.compare mx my); reflexivity.
Qed.

Lemma SFcompare_refl (x : spec_float) :
  x <> S754_nan -> SFcompare x x = Some Eq.
Proof.
  destruct x as [[]|[]| |[] mx ex]; simpl; intros H; try congruence;
    rewrite Z.compare_refl;
    change (Pos.compare_cont Eq ?a ?b) with (Pos.compare a b);
    rewrite Pos.compare_refl; reflexivity.
Qed.

Lemma SFcompare_lt_trans (x y z : spec_float) :
  SFcompare x y = Some Lt -> SFcompare y z = Some Lt ->
  SFcompare x z = Some Lt.
Proof.
  destruct x as [[]|[]| |[] mx ex], y as [[]|[]| |[] my ey],
    z as [[]|[]| |[] mz ez]; simpl; try congruence;
    change (Pos.compare_cont Eq ?a ?b) with (Pos.compare a b);
    destruct (Z.compare_spec ex ey), (Z.compare_spec ey ez),
      (Z.compare_spec ex ez); subst; simpl; try congruence; try lia;
    destruct (Pos.compare_spec mx my), (Pos.compare_spec my mz),
      (Pos.compare_spec mx mz); subst; simpl; try congruence; lia.
Qed.

Lemma SFcompare_eq_finite (x : spec_float) (s : bool) (m : positive) (e : Z) :
  SFcompare x (S754_finite s m e) = Some Eq -> x = S754_finite s m e.
Proof.
  destruct x as [[]|[]| |[] mx ex], s; simpl; try congruence;
    change (Pos.compare_cont Eq ?a ?b) with (Pos.compare a b);
    destruct (Z.compare_spec ex e); try congruence;
    destruct (Pos.compare_spec mx m); simpl; congruence.
Qed.

Lemma ltb_lt (x y : float) :
  (x <? y)%float = true <-> SFcompare (Prim2SF x) (Prim2SF y) = Some Lt.
Proof.
  rewrite ltb_spec. unfold SFltb.
  destruct (SFcompare _ _) as [[]|]; split; congruence.
Qed.

Lemma ltb_not_nan (x y : float) : (x <? y)%float = true -> is_nan x = false.
Proof.
  intros H. apply ltb_lt in H. unfold is_nan.
  rewrite eqb_spec. unfold SFeqb. rewrite SFcompare_refl; [reflexivity|].
  intros E. rewrite E in H. discriminate.
Qed.

Lemma ltb_leb_false (x y : float) :
  (x <? y)%float = true -> (y <=? x)%float = false.
Proof.
  intros H. apply ltb_lt in H. apply SFcompare_antisym in H.
  rewrite leb_spec. unfold SFleb. rewrite H. reflexivity.
Qed.

Lemma ltb_ltb_false (x y : float) :
  (x <? y)%float = true -> (y <? x)%float = false.
Proof.
  intros H. apply ltb_lt in H. apply SFcompare_antisym in H.
  rewrite ltb_spec. unfold SFltb. rewrite H. reflexivity.
Qed.

Lemma leb_ltb_false (x y : float) :
  (x <=? y)%float = true -> (y <? x)%float = false.
Proof.
  rewrite leb_spec, ltb_spec. unfold SFleb, SFltb. intros H.
  destruct (SFcompare (Prim2SF x) (Prim2SF y)) as [c|] eqn:E; [|discriminate].
  rewrite (SFcompare_antisym _ _ _ E). destruct c; try discriminate; reflexivity.
Qed.

Lemma ltb_trans (x y z : float) :
  (x <? y)%float = true -> (y <? z)%float = true -> (x <? z)%float = true.
Proof.
  rewrite !ltb_lt. apply SFcompare_lt_trans.
Qed.

Lemma eqb_128 (v : float) : (v =? 128)%float = true -> v = 128%float.
Proof.
  rewrite eqb_spec. unfold SFeqb. intros H. apply Prim2SF_inj.
  destruct (SFcompare (Prim2SF v) (Prim2SF 128)) as [[]|] eqn:E;
    try discriminate.
  apply (SFcompare_eq_finite _ false 4503599627370496 (-45)). exact E.
Qed.

(** A number below one half is stored as the byte 0. *)
Lemma ToUint8Clamp_small (v : float) :
  (v <? 0.5)%float = true -> ToUint8Clamp v = 0.
Proof.
  intros H. unfold ToUint8Clamp. rewrite (ltb_not_nan _ _ H).
  destruct (v <=? 0)%float; [reflexivity|].
  assert (B : forall c : float, (0.5 <? c)%float = true ->
                                (c <=? v)%float = false).
  { intros c Hc. apply ltb_leb_false. exact (ltb_trans _ _ _ H Hc). }
  rewrite (B 255%float) by reflexivity.
  assert (F : floor8 v = 0).
  { unfold floor8, floor_bits.
    change (Z2F (0 + 128)) with 128%float; rewrite (B 128%float) by reflexivity.
    change (Z2F (0 + 64)) with 64%float; rewrite (B 64%float) by reflexivity.
    change (Z2F (0 + 32)) with 32%float; rewrite (B 32%float) by reflexivity.
    change (Z2F (0 + 16)) with 16%float; rewrite (B 16%float) by reflexivity.
    change (Z2F (0 + 8)) with 8%float; rewrite (B 8%float) by reflexivity.
    change (Z2F (0 + 4)) with 4%float; rewrite (B 4%float) by reflexivity.
    change (Z2F (0 + 2)) with 2%float; rewrite (B 2%float) by reflexivity.
    change (Z2F (0 + 1)) with 1%float; rewrite (B 1%float) by reflexivity.
    reflexivity. }
  rewrite F. cbv zeta.
  change (Z2F 0 + 0.5)%float with 0.5%float.
  rewrite (ltb_ltb_false _ _ H), H. reflexivity.
Qed.

End FloatFacts.

(** ** Typed-array stores *)

Section Stores.

Lemma floor8_below_255 (v : float) :
  (255 <=? v)%float = false -> 0 <= floor8 v <= 254.
Proof.
  intros H. unfold floor8, floor_bits.
  repeat match goal with
         | |- context [if ?c then _ else _] => destruct c eqn:?
         end; try lia.
  match goal with
  | E : (Z2F (0 + 128 + 64 + 32 + 16 + 8 + 4 + 2 + 1) <=? v)%float = true |- _ =>
      change (Z2F (0 + 128 + 64 + 32 + 16 + 8 + 4 + 2 + 1)) with 255%float in E;
      congruence
  end.
Qed.

Lemma ToUint8Clamp_byte (v : float) : byte (ToUint8Clamp v).
Proof.
  unfold ToUint8Clamp, byte.
  destruct (is_nan v); [lia|].
  destruct (v <=? 0)%float; [lia|].
  destruct (255 <=? v)%float eqn:E; [lia|].
  pose proof (floor8_below_255 v E). cbv zeta.
  repeat match goal with
         | |- context [if ?c then _ else _] => destruct c
         end; lia.
Qed.

Lemma length_store (arr : list Z) (i : Z) (v : float) :
  length (store arr i v) = length arr.
Proof.
  unfold store. destruct (i <? 0); [reflexivity|]. apply length_insert.
Qed.

Lemma get_store_eq (arr : list Z) (i : Z) (v : float) :
  0 <= i < Z.of_nat (length arr) ->
  get (store arr i v) i = Some (ToUint8Clamp v).
Proof.
  intros H. unfold get, store.
  destruct (Z.ltb_spec i 0); [lia|].
  apply list_lookup_insert_eq. lia.
Qed.

Lemma get_store_ne (arr : list Z) (i j : Z) (v : float) :
  0 <= j -> i <> j -> get (store arr i v) j = get arr j.
Proof.
  intros Hj Hne. unfold get, store.
  destruct (Z.ltb_spec i 0); [reflexivity|].
  apply list_lookup_insert_ne. lia.
Qed.

Lemma store_bytes (arr : list Z) (i : Z) (v : float) :
  Forall byte arr -> Forall byte (store arr i v).
Proof.
  intros H. unfold store. destruct (i <? 0); [exact H|].
  apply Forall_insert; [exact H|apply ToUint8Clamp_byte].
Qed.

Lemma length_store3 arr i c : length (store3 arr i c) = length arr.
Proof.
  destruct c as [[r g] b]. unfold store3. now rewrite !length_store.
Qed.

Lemma store3_bytes arr i c : Forall byte arr -> Forall byte (store3 arr i c).
Proof.
  destruct c as [[r g] b]. unfold store3. intros H.
  now repeat apply store_bytes.
Qed.

Lemma get_store3_other arr i c j :
  0 <= j -> j < i \/ i + 2 < j -> get (store3 arr i c) j = get arr j.
Proof.
  destruct c as [[r g] b]. unfold store3. intros Hj Hne.
  rewrite !get_store_ne by lia. reflexivity.
Qed.

Lemma get_store3_same arr i r g b :
  0 <= i -> i + 2 < Z.of_nat (length arr) ->
  get (store3 arr i (r, g, b)) i = Some (ToUint8Clamp r) /\
  get (store3 arr i (r, g, b)) (i + 1) = Some (ToUint8Clamp g) /\
  get (store3 arr i (r, g, b)) (i + 2) = Some (ToUint8Clamp b).
Proof.
  intros Hi Hlen. unfold store3. repeat split.
  - rewrite !get_store_ne by lia. apply get_store_eq. lia.
  - rewrite get_store_ne by lia. apply get_store_eq.
    rewrite length_store. lia.
  - apply get_store_eq. rewrite !length_store. lia.
Qed.

Lemma length_storePixel out idx c :
  length (storePixel out idx c) = length out.
Proof. unfold storePixel. now rewrite length_store, length_store3. Qed.

Lemma storePixel_bytes out idx c :
  Forall byte out -> Forall byte (storePixel out idx c).
Proof. intros H. now apply store_bytes, store3_bytes. Qed.

Lemma get_storePixel_other out idx c j :
  0 <= j -> j < idx \/ idx + 3 < j ->
  get (storePixel out idx c) j = get out j.
Proof.
  intros Hj Hne. unfold storePixel.
  rewrite get_store_ne by lia. apply get_store3_other; lia.
Qed.

Lemma get_storePixel_same out idx r g b :
  0 <= idx -> idx + 3 < Z.of_nat (length out) ->
  get (storePixel out idx (r, g, b)) idx = Some (ToUint8Clamp r) /\
  get (storePixel out idx (r, g, b)) (idx + 1) = Some (ToUint8Clamp g) /\
  get (storePixel out idx (r, g, b)) (idx + 2) = Some (ToUint8Clamp b) /\
  get (storePixel out idx (r, g, b)) (idx + 3) = Some 255.
Proof.
  intros Hi Hlen. unfold storePixel.
  destruct (get_store3_same out idx r g b) as (H0 & H1 & H2); [lia..|].
  rewrite !get_store_ne by lia. repeat split; try assumption.
  change (Some 255) with (Some (ToUint8Clamp 255)).
  apply get_store_eq. rewrite length_store3. lia.
Qed.

Lemma length_storeGray out idx v :
  length (storeGray out idx v) = length out.
Proof. unfold storeGray. now rewrite !length_store. Qed.

Lemma storeGray_bytes out idx v :
  Forall byte out -> Forall byte (storeGray out idx v).
Proof. intros H. unfold storeGray. now repeat apply store_bytes. Qed.

Lemma get_storeGray_other out idx v j :
  0 <= j -> j < idx \/ idx + 3 < j ->
  get (storeGray out idx v) j = get out j.
Proof.
  intros Hj Hne. unfold storeGray. rewrite !get_store_ne by lia. reflexivity.
Qed.

Lemma get_storeGray_alpha out idx v :
  0 <= idx -> idx + 3 < Z.of_nat (length out) ->
  get (storeGray out idx v) (idx + 3) = Some 255.
Proof.
  intros Hi Hlen. unfold storeGray.
  change (Some 255) with (Some (ToUint8Clamp 255)).
  apply get_store_eq. rewrite !length_store. lia.
Qed.

Lemma get_storeGray_rgb out idx v c :
  0 <= idx -> idx + 3 < Z.of_nat (length out) -> 0 <= c <= 2 ->
  get (storeGray out idx v) (idx + c) = Some (ToUint8Clamp v).
Proof.
  intros Hi Hlen Hc. unfold storeGray.
  rewrite get_store_ne by lia.
  assert (c = 0 \/ c = 1 \/ c = 2) as [-> | [-> | ->]] by lia.
  - rewrite Z.add_0_r. apply get_store_eq. rewrite !length_store. lia.
  - rewrite get_store_ne by lia. apply get_store_eq. rewrite length_store. lia.
  - rewrite !get_store_ne by lia. apply get_store_eq. lia.
Qed.

End Stores.

(** ** Counted loops run to completion *)

Section Loops.

Context {A : Type}.

Lemma for_loop_fold (body : Z -> A -> A) (stop step : Z) (fuel : nat) :
  forall i a,
    for_loop fuel i stop step body a
    = fold_left (fun a i => body i a) (loop_values fuel i stop step) a.
Proof.
  induction fuel as [|fuel IH]; intros i a; simpl; [reflexivity|].
  destruct (i <? stop); simpl; [apply IH|reflexivity].
Qed.

Lemma for_fold (body : Z -> A -> A) (start stop step : Z) (a : A) :
  for_ start stop step body a
  = fold_left (fun a i => body i a) (range start stop step) a.
Proof. apply for_loop_fold. Qed.

Lemma fold_inv {K : Type} (f : A -> K -> A) (P : A -> Prop) (ks : list K) :
  forall a,
    P a -> (forall k a, In k ks -> P a -> P (f a k)) ->
    P (fold_left f ks a).
Proof.
  induction ks as [|k ks IH]; intros a Ha Hf; simpl; [exact Ha|].
  apply IH.
  - apply Hf; [now left|exact Ha].
  - intros k' a' Hin. apply Hf. now right.
Qed.

Lemma fold_establish {K : Type} (f : A -> K -> A) (Pre Q : A -> Prop)
    (ks : list K) (k : K) :
  In k ks ->
  (forall k' a, In k' ks -> Pre a -> Pre (f a k')) ->
  (forall a, Pre a -> Q (f a k)) ->
  (forall k' a, In k' ks -> Pre a -> Q a -> Q (f a k')) ->
  forall a, Pre a -> Q (fold_left f ks a).
Proof.
  intros Hin Hpre Hk Hstable.
  assert (Keep : forall ks' a, (forall k', In k' ks' -> In k' ks) ->
                   Pre a -> Q a -> Q (fold_left f ks' a) ).
  { induction ks' as [|k' ks' IH]; intros a Hsub Ha Hq; simpl; [exact Hq|].
    apply IH.
    - intros k'' H. apply Hsub. now right.
    - apply Hpre; [apply Hsub; now left|exact Ha].
    - apply Hstable; [apply Hsub; now left|exact Ha|exact Hq]. }
  assert (Go : forall ks' a, (forall k', In k' ks' -> In k' ks) ->
                 In k ks' -> Pre a -> Q (fold_left f ks' a)).
  { induction ks' as [|k' ks' IH]; intros a Hsub Hk' Ha; simpl; [destruct Hk'|].
    destruct Hk' as [->|Hk'].
    - apply Keep; [intros k'' H; apply Hsub; now right|..].
      + apply Hpre; [exact Hin|exact Ha].
      + apply Hk. exact Ha.
    - apply IH; [intros k'' H; apply Hsub; now right|exact Hk'|].
      apply Hpre; [apply Hsub; now left|exact Ha]. }
  intros a Ha. apply Go; [auto|exact Hin|exact Ha].
Qed.

End Loops.

Section Ranges.

(** The values a loop with a positive step visits: the fuel of [for_] is
    never exhausted before the test fails. *)
Lemma loop_values_spec (stop step : Z) (fuel : nat) :
  0 < step ->
  forall i x, stop - i <= Z.of_nat fuel ->
    In x (loop_values fuel i stop step)
    <-> exists k, 0 <= k /\ x = i + k * step /\ x < stop.
Proof.
  intros Hstep. induction fuel as [|fuel IH]; intros i x Hfuel; simpl.
  - split; [intros []|]. intros (k & Hk & -> & Hlt). nia.
  - destruct (Z.ltb_spec i stop) as [Hlt|Hge]; simpl.
    + rewrite IH by lia. split.
      * intros [<-|(k & Hk & -> & Hx)].
        -- exists 0. lia.
        -- exists (k + 1). lia.
      * intros (k & Hk & -> & Hx).
        destruct (Z.eq_dec k 0) as [->|Hne]; [left; lia|].
        right. exists (k - 1). lia.
    + split; [intros []|]. intros (k & Hk & -> & Hx). nia.
Qed.

Lemma range_spec (start stop step x : Z) :
  0 < step ->
  In x (range start stop step)
  <-> exists k, 0 <= k /\ x = start + k * step /\ x < stop.
Proof.
  intros Hstep. apply loop_values_spec; [exact Hstep|lia].
Qed.

Lemma range_1 (stop x : Z) : In x (range 0 stop 1) <-> 0 <= x < stop.
Proof.
  rewrite range_spec by lia. split.
  - intros (k & Hk & -> & Hx). lia.
  - intros H. exists x. lia.
Qed.

Lemma range_2 (stop x : Z) :
  In x (range 0 stop 2) <-> 0 <= x < stop /\ x = 2 * (x / 2).
Proof.
  rewrite range_spec by lia. split.
  - intros (k & Hk & -> & Hx). rewrite Z.add_0_l, Z.div_mul by lia. lia.
  - intros [H E]. exists (x / 2). lia.
Qed.

Lemma range_4 (stop x : Z) :
  In x (range 0 stop 4) <-> 0 <= x < stop /\ x = 4 * (x / 4).
Proof.
  rewrite range_spec by lia. split.
  - intros (k & Hk & -> & Hx). rewrite Z.add_0_l, Z.div_mul by lia. lia.
  - intros [H E]. exists (x / 4). lia.
Qed.

(** The value of the loop variable in the last iteration. *)
Lemma loop_values_last (stop step : Z) (fuel : nat) :
  0 < step ->
  forall i, i < stop -> stop - i <= Z.of_nat fuel ->
    last (loop_values fuel i stop step)
    = Some (i + (stop - 1 - i) / step * step).
Proof.
  intros Hstep. induction fuel as [|fuel IH]; intros i Hi Hfuel; [lia|].
  simpl. destruct (Z.ltb_spec i stop) as [_|]; [|lia].
  destruct (Z.lt_ge_cases (i + step) stop) as [Hlt|Hge].
  - assert (E : last (i :: loop_values fuel (i + step) stop step)
                = last (loop_values fuel (i + step) stop step)).
    { destruct fuel as [|fuel']; [lia|]. simpl.
      destruct (Z.ltb_spec (i + step) stop); [reflexivity|lia]. }
    rewrite E, IH by lia. f_equal.
    replace (stop - 1 - i) with (stop - 1 - (i + step) + 1 * step) by lia.
    rewrite Z.div_add by lia. lia.
  - assert (E : loop_values fuel (i + step) stop step = []).
    { destruct fuel as [|fuel']; [reflexivity|]. simpl.
      destruct (Z.ltb_spec (i + step) stop); [lia|reflexivity]. }
    rewrite E. simpl. f_equal.
    rewrite Z.div_small by lia. lia.
Qed.

(** More fuel changes nothing: the loop stops on its own test. *)
Lemma for_loop_enough {A : Type} (body : Z -> A -> A) (stop step : Z) :
  0 < step ->
  forall (fuel extra : nat) i a,
    stop - i <= Z.of_nat fuel ->
    for_loop (fuel + extra) i stop step body a
    = for_loop fuel i stop step body a.
Proof.
  intros Hstep. induction fuel as [|fuel IH]; intros extra i a Hfuel.
  - destruct extra; simpl; [reflexivity|].
    destruct (Z.ltb_spec i stop); [lia|reflexivity].
  - simpl. destruct (Z.ltb_spec i stop); [|reflexivity].
    apply IH. lia.
Qed.

End Ranges.

(** ** What the loops leave in the output *)

Section Pixels.

Lemma pixel_index_inj (w x y x' y' : Z) :
  0 <= x < w -> 0 <= x' < w -> y * w + x = y' * w + x' ->
  x = x' /\ y = y'.
Proof.
  intros Hx Hx' E.
  assert (y = y') as -> by nia. lia.
Qed.

Lemma pixel_index_range (w h x y : Z) :
  0 <= x < w -> 0 <= y < h -> 0 <= y * w + x < w * h.
Proof. intros Hx Hy. nia. Qed.

Variable atan2 : float -> float -> float.
Variables (w h : Z) (d : list Z) (type : ViewType).
Hypotheses (Hw : 0 < w) (Hh : 0 < h).

Let sized (out : list Z) : Prop := Z.of_nat (length out) = w * h * 4.

Lemma convBody_sized x y out :
  sized out -> sized (convBody atan2 w h d type x y out).
Proof. unfold sized, convBody. now rewrite length_storePixel. Qed.

Lemma convBody_writes x y out :
  0 <= x < w -> 0 <= y < h -> sized out ->
  pixel_is (convBody atan2 w h d type x y out) ((y * w + x) * 4)
    (convColor atan2 w h d type x y).
Proof.
  intros Hx Hy Hs. unfold convBody, pixel_is.
  destruct (convColor atan2 w h d type x y) as [[r g] b]. simpl.
  pose proof (pixel_index_range w h x y Hx Hy).
  apply get_storePixel_same; unfold sized in Hs; lia.
Qed.

Lemma convBody_keeps x y x' y' out c :
  0 <= x < w -> 0 <= y < h -> 0 <= x' < w -> 0 <= y' < h ->
  sized out ->
  c = convColor atan2 w h d type x y ->
  pixel_is out ((y * w + x) * 4) c ->
  pixel_is (convBody atan2 w h d type x' y' out) ((y * w + x) * 4) c.
Proof.
  intros Hx Hy Hx' Hy' Hs -> Hp.
  destruct (Z.eq_dec (y' * w + x') (y * w + x)) as [E|Hne].
  - destruct (pixel_index_inj w x' y' x y Hx' Hx E) as [-> ->].
    now apply convBody_writes.
  - pose proof (pixel_index_range w h x y Hx Hy).
    pose proof (pixel_index_range w h x' y' Hx' Hy').
    destruct Hp as (G0 & G1 & G2 & G3). unfold convBody, pixel_is.
    rewrite !get_storePixel_other by lia. auto.
Qed.

(** Every pixel of a neighbourhood view is its colour, fully opaque. *)
Lemma conv_pixel x y out :
  0 <= x < w -> 0 <= y < h -> sized out ->
  pixel_is (conv atan2 w h d type out) ((y * w + x) * 4)
    (convColor atan2 w h d type x y).
Proof.
  intros Hx Hy Hs. unfold conv. rewrite for_fold.
  pose (Q := fun o => pixel_is o ((y * w + x) * 4)
                        (convColor atan2 w h d type x y)).
  apply (fold_establish _ sized Q _ y); [now apply range_1| | | |exact Hs].
  - intros y' a _ Ha. rewrite for_fold. apply fold_inv; [exact Ha|].
    intros x' a' _. apply convBody_sized.
  - intros a Ha. rewrite for_fold.
    apply (fold_establish _ sized Q _ x); [now apply range_1| | | |exact Ha].
    + intros x' a' _. apply convBody_sized.
    + intros a'. now apply convBody_writes.
    + intros x' a' Hx' Ha' Hq. apply range_1 in Hx'.
      now apply convBody_keeps.
  - intros y' a Hy' Ha Hq. apply range_1 in Hy'. rewrite for_fold.
    apply (fold_inv _ (fun o => sized o /\ Q o)); [now split|].
    intros x' a' Hx' [Ha' Hq']. apply range_1 in Hx'. split.
    + now apply convBody_sized.
    + now apply convBody_keeps.
Qed.

Lemma conv_sized out : sized out -> sized (conv atan2 w h d type out).
Proof.
  intros Hs. unfold conv. rewrite for_fold. apply fold_inv; [exact Hs|].
  intros y a _ Ha. rewrite for_fold. apply fold_inv; [exact Ha|].
  intros x a' _. apply convBody_sized.
Qed.

Lemma conv_bytes out : Forall byte out -> Forall byte (conv atan2 w h d type out).
Proof.
  intros Hs. unfold conv. rewrite for_fold. apply fold_inv; [exact Hs|].
  intros y a _ Ha. rewrite for_fold. apply fold_inv; [exact Ha|].
  intros x a' _. apply storePixel_bytes.
Qed.

End Pixels.

(** Linear arithmetic with divisions by constants. *)
Ltac div_lia := Z.to_euclidean_division_equations; lia.

Section WaveletPixels.

Variables (w h : Z) (d : list Z).
Hypotheses (Hw : 0 < w) (Hh : 0 < h).

Let sized (out : list Z) : Prop := Z.of_nat (length out) = w * h * 4.

Lemma waveletBody_sized x y out :
  sized out -> sized (waveletBody w h d x y out).
Proof.
  unfold sized, waveletBody. destruct (haar _ _ _ _) as [[[LL LH] HL] HH].
  intros H. now rewrite !length_storeGray.
Qed.

Lemma waveletBody_bytes x y out :
  Forall byte out -> Forall byte (waveletBody w h d x y out).
Proof.
  intros H. unfold waveletBody. destruct (haar _ _ _ _) as [[[LL LH] HL] HH].
  now repeat apply storeGray_bytes.
Qed.

(** A grey store at a pixel boundary makes the alpha of its own pixel 255
    and leaves the alpha of every other pixel alone. *)
Lemma storeGray_alpha out q p v :
  sized out -> 0 <= p < w * h ->
  q = p \/ get out (p * 4 + 3) = Some 255 ->
  get (storeGray out (q * 4) v) (p * 4 + 3) = Some 255.
Proof.
  intros Hs Hp Hq. destruct (Z.eq_dec q p) as [->|Hne].
  - apply get_storeGray_alpha; unfold sized in Hs; lia.
  - destruct Hq as [?|Hq]; [contradiction|].
    rewrite get_storeGray_other by lia. exact Hq.
Qed.

Lemma waveletBody_alpha x y out p :
  sized out -> 0 <= p < w * h ->
  idxLL w h x y = p * 4 \/ idxLH w h x y = p * 4 \/
  idxHL w h x y = p * 4 \/ idxHH w h x y = p * 4 \/
  get out (p * 4 + 3) = Some 255 ->
  get (waveletBody w h d x y out) (p * 4 + 3) = Some 255.
Proof.
  intros Hs Hp Hq. unfold waveletBody.
  destruct (haar _ _ _ _) as [[[LL LH] HL] HH].
  unfold idxLL, idxLH, idxHL, idxHH in *.
  assert (Sz : forall o idx v, sized o -> sized (storeGray o idx v)).
  { intros o idx v Ho. unfold sized. now rewrite length_storeGray. }
  apply storeGray_alpha; [now repeat apply Sz|exact Hp|].
  destruct Hq as [Hq|[Hq|[Hq|[Hq|Hq]]]]; try (left; lia); right.
  all: apply storeGray_alpha; [now repeat apply Sz|exact Hp|].
  all: try (left; lia); right.
  all: apply storeGray_alpha; [now repeat apply Sz|exact Hp|].
  all: try (left; lia); right.
  all: apply storeGray_alpha; [exact Hs|exact Hp|].
  all: try (left; lia); right; exact Hq.
Qed.

Lemma blockOf_range size c :
  0 < size -> 0 <= c < size -> In (blockOf size c) (range 0 size 2).
Proof.
  intros Hs Hc. apply range_2. unfold blockOf.
  destruct (Z.leb_spec c ((size - 1) / 2)).
  - div_lia.
  - div_lia.
Qed.

Lemma blockOf_half size c :
  0 < size -> 0 <= c < size ->
  blockOf size c / 2 = c \/ blockOf size c / 2 + size / 2 = c.
Proof.
  intros Hs Hc. unfold blockOf.
  destruct (Z.leb_spec c ((size - 1) / 2)).
  - left. div_lia.
  - right. div_lia.
Qed.

(** Every pixel of the wavelet view is written, and is opaque. *)
Lemma wavelet_alpha col row out :
  0 <= col < w -> 0 <= row < h -> sized out ->
  get (wavelet w h d out) ((row * w + col) * 4 + 3) = Some 255.
Proof.
  intros Hc Hr Hs. unfold wavelet. rewrite for_fold.
  pose proof (pixel_index_range w h col row Hc Hr) as Hp.
  pose (Q := fun o => get o ((row * w + col) * 4 + 3) = Some 255).
  apply (fold_establish _ sized Q _ (blockOf h row));
    [now apply blockOf_range| | | |exact Hs].
  - intros y' a _ Ha. rewrite for_fold. apply fold_inv; [exact Ha|].
    intros x' a' _. apply waveletBody_sized.
  - intros a Ha. rewrite for_fold.
    apply (fold_establish _ sized Q _ (blockOf w col));
      [now apply blockOf_range| | | |exact Ha].
    + intros x' a' _. apply waveletBody_sized.
    + intros a' Ha'. apply waveletBody_alpha; [exact Ha'|exact Hp|].
      unfold idxLL, idxLH, idxHL, idxHH.
      destruct (blockOf_half w col Hw Hc) as [E|E],
        (blockOf_half h row Hh Hr) as [F|F].
      * left. rewrite E, F. reflexivity.
      * right; right; left. rewrite E, F. reflexivity.
      * right; left. rewrite E, F. reflexivity.
      * right; right; right; left. rewrite E, F. reflexivity.
    + intros x' a' _ Ha' Hq. apply waveletBody_alpha; auto 10.
  - intros y' a _ Ha Hq. rewrite for_fold.
    apply (fold_inv _ (fun o => sized o /\ Q o)); [now split|].
    intros x' a' _ [Ha' Hq']. split.
    + now apply waveletBody_sized.
    + apply waveletBody_alpha; auto 10.
Qed.

Lemma wavelet_sized out : sized out -> sized (wavelet w h d out).
Proof.
  intros Hs. unfold wavelet. rewrite for_fold. apply fold_inv; [exact Hs|].
  intros y a _ Ha. rewrite for_fold. apply fold_inv; [exact Ha|].
  intros x a' _. apply waveletBody_sized.
Qed.

Lemma wavelet_bytes out : Forall byte out -> Forall byte (wavelet w h d out).
Proof.
  intros Hs. unfold wavelet. rewrite for_fold. apply fold_inv; [exact Hs|].
  intros y a _ Ha. rewrite for_fold. apply fold_inv; [exact Ha|].
  intros x a' _. apply waveletBody_bytes.
Qed.

End WaveletPixels.

Section PointPixels.

Variable type : ViewType.

Lemma pointBody_length i d : length (pointBody type i d) = length d.
Proof. unfold pointBody. apply length_store3. Qed.

Lemma pointFilter_length d : length (pointFilter type d) = length d.
Proof.
  unfold pointFilter. rewrite for_fold.
  apply (fold_inv _ (fun o => length o = length d)); [reflexivity|].
  intros i a _ Ha. now rewrite pointBody_length.
Qed.

Lemma pointFilter_bytes d : Forall byte d -> Forall byte (pointFilter type d).
Proof.
  intros H. unfold pointFilter. rewrite for_fold. apply fold_inv; [exact H|].
  intros i a _ Ha. unfold pointBody. now apply store3_bytes.
Qed.

(** The per-pixel loop never assigns an alpha byte. *)
Lemma pointFilter_alpha d p :
  0 <= p -> get (pointFilter type d) (p * 4 + 3) = get d (p * 4 + 3).
Proof.
  intros Hp. unfold pointFilter. rewrite for_fold.
  apply (fold_inv _ (fun o => get o (p * 4 + 3) = get d (p * 4 + 3)));
    [reflexivity|].
  intros i a Hi Ha. apply range_4 in Hi. destruct Hi as [Hi E].
  unfold pointBody. rewrite get_store3_other by lia. exact Ha.
Qed.

End PointPixels.

(** ** The views *)

Section Views.

Variable atan2 : float -> float -> float.

Lemma createImageData_sized (w h : Z) :
  0 < w -> 0 < h ->
  Z.of_nat (length (data (createImageData w h))) = w * h * 4.
Proof. intros Hw Hh. simpl. rewrite length_replicate. nia. Qed.

Lemma createImageData_bytes (w h : Z) :
  Forall byte (data (createImageData w h)).
Proof. simpl. apply Forall_replicate. unfold byte. lia. Qed.

Lemma wf_pixel_offset (S : ImageData) (x y c : Z) :
  0 <= x < width S -> 0 <= y < height S ->
  (y * width S + x) * 4 + c = (y * width S + x) * 4 + c /\
  0 <= y * width S + x.
Proof. intros Hx Hy. split; [reflexivity|nia]. Qed.

(** C1 (as the code has it): a structural view (the neighbourhood views
    and the wavelet view) gives every output pixel the alpha 255 whatever
    the source alpha is, while a per-pixel view leaves every pixel the
    alpha of the source pixel. *)
Theorem alpha_of_views (S : ImageData) (V : ViewType) (x y : Z) :
  wf S -> 0 <= x < width S -> 0 <= y < height S ->
  (structural V = true -> channel (render atan2 S V) x y 3 = Some 255) /\
  (perPixel V = true ->
   channel (render atan2 S V) x y 3 = channel S x y 3).
Proof.
  intros [Hw Hh Hlen Hb] Hx Hy.
  pose proof (createImageData_sized _ _ Hw Hh) as Hs.
  split; intros HV; destruct V; try discriminate HV; unfold channel, render;
    cbn [perPixel structural width height data].
  all: lazymatch goal with
       | |- context [conv _ _ _ _ ?t _] =>
           destruct (conv_pixel atan2 _ _ (data S) t Hw x y _ Hx Hy Hs)
             as (_ & _ & _ & H3); exact H3
       | |- context [wavelet _ _ _ _] =>
           exact (wavelet_alpha _ _ (data S) Hw Hh x y _ Hx Hy Hs)
       | |- context [pointFilter ?t _] =>
           apply (pointFilter_alpha t (data S) (y * width S + x)); nia
       end.
Qed.

(** C3: every store narrows its value to a byte, so that every channel of
    every view of a well-formed source lies in [0, 255]. *)
Theorem channels_in_range (S : ImageData) (V : ViewType) :
  wf S ->
  (forall v : float, 0 <= ToUint8Clamp v <= 255) /\
  Forall (fun b => 0 <= b <= 255) (data (render atan2 S V)).
Proof.
  intros [Hw Hh Hlen Hb]. split; [exact ToUint8Clamp_byte|].
  change (Forall byte (data (render atan2 S V))).
  destruct V; unfold render; cbn [perPixel structural data]; try exact Hb;
    try (apply pointFilter_bytes; exact Hb);
    try (apply conv_bytes; apply createImageData_bytes).
  apply wavelet_bytes, createImageData_bytes.
Qed.

(** C4: the Haar coefficients of the block with luminances 100, 150, 50
    and 200 are LL = 125, LH = 128, HL = 78 and HH = 153, and these are
    the values the wavelet view stores for a 2x2 image of these greys. *)
Theorem haar_worked_example :
  haar 100 150 50 200 = (125, 128, 78, 153)%float /\
  data (render atan2 image2 WAVELET)
  = [125; 125; 125; 255; 128; 128; 128; 255;
     78; 78; 78; 255; 153; 153; 153; 255].
Proof. split; vm_compute; reflexivity. Qed.

Lemma getPixelIndex_clampTo (w h x y : Z) (d : list Z) :
  0 < w -> 0 < h ->
  getPixelIndex w h x y
  = (clampTo 0 (h - 1) y * w + clampTo 0 (w - 1) x) * 4 /\
  0 <= clampTo 0 (w - 1) x <= w - 1 /\
  0 <= clampTo 0 (h - 1) y <= h - 1 /\
  0 <= getPixelIndex w h x y /\ getPixelIndex w h x y + 3 < w * h * 4 /\
  (w = 1 -> h = 1 ->
   getPixelIndex w h x y = 0 /\
   getGray d (getPixelIndex w h x y) = getGray d 0).
Proof.
  intros Hw Hh. unfold getPixelIndex.
  assert (Ex : Z.max 0 (Z.min (w - 1) x) = clampTo 0 (w - 1) x).
  { unfold clampTo.
    destruct (Z.ltb_spec x 0), (Z.ltb_spec (w - 1) x); lia. }
  assert (Ey : Z.max 0 (Z.min (h - 1) y) = clampTo 0 (h - 1) y).
  { unfold clampTo.
    destruct (Z.ltb_spec y 0), (Z.ltb_spec (h - 1) y); lia. }
  rewrite Ex, Ey.
  assert (Bx : 0 <= clampTo 0 (w - 1) x <= w - 1).
  { unfold clampTo.
    destruct (Z.ltb_spec x 0), (Z.ltb_spec (w - 1) x); lia. }
  assert (By : 0 <= clampTo 0 (h - 1) y <= h - 1).
  { unfold clampTo.
    destruct (Z.ltb_spec y 0), (Z.ltb_spec (h - 1) y); lia. }
  split; [reflexivity|]. split; [exact Bx|]. split; [exact By|].
  split; [nia|]. split; [nia|].
  intros -> ->.
  replace (clampTo 0 (1 - 1) x) with 0 in * by lia.
  replace (clampTo 0 (1 - 1) y) with 0 in * by lia.
  split; reflexivity.
Qed.

(** C6: the pixel index clamps both coordinates independently to the
    image and addresses the clamped pixel, inside the buffer; on a 1x1
    image every access is the single pixel. *)
Theorem getPixelIndex_clamps (w h x y : Z) (d : list Z) :
  0 < w -> 0 < h ->
  getPixelIndex w h x y
  = (clampTo 0 (h - 1) y * w + clampTo 0 (w - 1) x) * 4 /\
  0 <= clampTo 0 (w - 1) x <= w - 1 /\
  0 <= clampTo 0 (h - 1) y <= h - 1 /\
  0 <= getPixelIndex w h x y /\ getPixelIndex w h x y + 3 < w * h * 4 /\
  (w = 1 -> h = 1 ->
   getPixelIndex w h x y = 0 /\
   getGray d (getPixelIndex w h x y) = getGray d 0).
Proof.
  intros Hw Hh. unfold getPixelIndex.
  assert (Ex : Z.max 0 (Z.min (w - 1) x) = clampTo 0 (w - 1) x).
  { unfold clampTo.
    destruct (Z.ltb_spec x 0), (Z.ltb_spec (w - 1) x); lia. }
  assert (Ey : Z.max 0 (Z.min (h - 1) y) = clampTo 0 (h - 1) y).
  { unfold clampTo.
    destruct (Z.ltb_spec y 0), (Z.ltb_spec (h - 1) y); lia. }
  rewrite Ex, Ey.
  assert (Bx : 0 <= clampTo 0 (w - 1) x <= w - 1).
  { unfold clampTo.
    destruct (Z.ltb_spec x 0), (Z.ltb_spec (w - 1) x); lia. }
  assert (By : 0 <= clampTo 0 (h - 1) y <= h - 1).
  { unfold clampTo.
    destruct (Z.ltb_spec y 0), (Z.ltb_spec (h - 1) y); lia. }
  split; [reflexivity|]. split; [exact Bx|]. split; [exact By|].
  split; [nia|]. split; [nia|].
  intros -> ->.
  replace (clampTo 0 (1 - 1) x) with 0 in * by lia.
  replace (clampTo 0 (1 - 1) y) with 0 in * by lia.
  split; reflexivity.
Qed.

(** C8: the heat map stores pure blue for the luminance 0, pure red for
    the luminance 255, and a colour whose green exceeds its red and its
    blue for the luminances 127 and 128; a black pixel and a white pixel
    have the luminances 0 and 255. *)
Theorem heatmap_endpoints :
  stored (heatmap 0) = (0, 0, 255) /\
  stored (heatmap 255) = (255, 0, 0) /\
  stored (heatmap 127) = (0, 254, 1) /\ greenDominant (stored (heatmap 127)) /\
  stored (heatmap 128) = (1, 254, 0) /\ greenDominant (stored (heatmap 128)) /\
  data (render atan2 (mkImageData 1 1 [0; 0; 0; 255]) HEATMAP)
  = [0; 0; 255; 255] /\
  data (render atan2 (mkImageData 1 1 [255; 255; 255; 255]) HEATMAP)
  = [255; 0; 0; 255].
Proof. repeat split; vm_compute; reflexivity. Qed.

Lemma flat_all_true : flat_all = true.
Proof. vm_compute. reflexivity. Qed.

Lemma byteNumbers_In (b : Z) : byte b -> In (Z2F b) byteNumbers.
Proof.
  intros Hb. unfold byteNumbers. apply in_map_iff.
  exists (Z.to_nat b). split.
  - f_equal. unfold byte in Hb. lia.
  - apply in_seq. unfold byte in Hb. lia.
Qed.

(** [flat_all] unfolded, stated so that the check is not evaluated again. *)
Lemma flat_all_unfold :
  forallb (fun r =>
    forallb (fun g =>
      forallb (fun b => flat_ok (0.299 * r + 0.587 * g + 0.114 * b)%float)
        byteNumbers) byteNumbers) byteNumbers
  = flat_all.
Proof.
  exact (@eq_refl bool
    (forallb (fun r =>
       forallb (fun g =>
         forallb (fun b => flat_ok (0.299 * r + 0.587 * g + 0.114 * b)%float)
           byteNumbers) byteNumbers) byteNumbers)).
Qed.

Lemma flat_ok_luminance (r g b : Z) :
  byte r -> byte g -> byte b -> flat_ok (luminance r g b) = true.
Proof.
  intros Hr Hg Hb. pose proof flat_all_true as H.
  rewrite <- flat_all_unfold in H.
  rewrite forallb_forall in H. specialize (H _ (byteNumbers_In r Hr)).
  rewrite forallb_forall in H. specialize (H _ (byteNumbers_In g Hg)).
  rewrite forallb_forall in H. exact (H _ (byteNumbers_In b Hb)).
Qed.

Lemma load_get (d : list Z) (i b : Z) :
  0 <= i -> get d i = Some b -> load d i = Z2F b.
Proof.
  intros Hi H. unfold load, get in *.
  destruct (Z.ltb_spec i 0); [lia|]. now rewrite H.
Qed.

Lemma uniform_gray (S : ImageData) (r g b x y : Z) :
  wf S -> uniform S r g b ->
  getGray (data S) (getPixelIndex (width S) (height S) x y)
  = luminance r g b.
Proof.
  intros [Hw Hh Hlen Hb] Hu.
  destruct (getPixelIndex_clampTo (width S) (height S) x y (data S) Hw Hh)
    as (E & Bx & By & _).
  rewrite E.
  destruct (Hu (clampTo 0 (width S - 1) x) (clampTo 0 (height S - 1) y))
    as (Hr & Hg & Hbl); [lia..|].
  unfold channel in Hr, Hg, Hbl. rewrite Z.add_0_r in Hr.
  unfold getGray, luminance.
  rewrite (load_get _ _ r), (load_get _ _ g), (load_get _ _ b);
    try assumption; try nia.
  reflexivity.
Qed.

Lemma uniform_bytes (S : ImageData) (r g b : Z) :
  wf S -> uniform S r g b -> byte r /\ byte g /\ byte b.
Proof.
  intros [Hw Hh Hlen Hb] Hu.
  destruct (Hu 0 0) as (Hr & Hg & Hbl); [lia..|].
  unfold channel in *.
  split; [|split]; eapply Forall_lookup_1; eassumption.
Qed.

Lemma channel_conv (S : ImageData) (V : ViewType) (x y : Z) :
  wf S -> 0 <= x < width S -> 0 <= y < height S ->
  perPixel V = false -> structural V = true -> V <> WAVELET ->
  forall c, 0 <= c <= 2 ->
    channel (render atan2 S V) x y c
    = Some (ToUint8Clamp
        (let '(r, g, b) :=
           convColor atan2 (width S) (height S) (data S) V x y in
         if c =? 0 then r else if c =? 1 then g else b)).
Proof.
  intros [Hw Hh Hlen Hb] Hx Hy HP HS HW c Hc.
  pose proof (createImageData_sized _ _ Hw Hh) as Hs.
  pose proof (conv_pixel atan2 _ _ (data S) V Hw x y _ Hx Hy Hs) as HC.
  unfold pixel_is in HC.
  destruct (convColor atan2 (width S) (height S) (data S) V x y)
    as [[r g] b].
  destruct HC as (H0 & H1 & H2 & _). cbn [fst snd] in *.
  assert (R : data (render atan2 S V)
              = conv atan2 (width S) (height S) (data S) V
                  (data (createImageData (width S) (height S)))).
  { destruct V; try discriminate; try contradiction; reflexivity. }
  unfold channel. rewrite R. cbn [width].
  replace (width (render atan2 S V)) with (width S)
    by (destruct V; try discriminate; try contradiction; reflexivity).
  assert (c = 0 \/ c = 1 \/ c = 2) as [-> | [-> | ->]] by lia.
  - rewrite Z.add_0_r. exact H0.
  - exact H1.
  - exact H2.
Qed.

(** C2 (as the code has it): on a source whose pixels all have the same
    colour, every channel of the gradient magnitude view is 0 and every
    channel of the zero-crossing view is 128, the value the view gives to
    a zero Laplacian. *)
Theorem flat_field (S : ImageData) (r g b x y c : Z) :
  wf S -> uniform S r g b ->
  0 <= x < width S -> 0 <= y < height S -> 0 <= c <= 2 ->
  channel (render atan2 S GRADIENT_MAGNITUDE) x y c = Some 0 /\
  channel (render atan2 S ZERO_CROSSING) x y c = Some 128.
Proof.
  intros Hwf Hu Hx Hy Hc.
  destruct (uniform_bytes S r g b Hwf Hu) as (Br & Bg & Bb).
  pose proof (flat_ok_luminance r g b Br Bg Bb) as Hflat.
  unfold flat_ok in Hflat. apply andb_prop in Hflat.
  destruct Hflat as [Hm Hz].
  apply ToUint8Clamp_small in Hm. apply eqb_128 in Hz.
  split.
  - rewrite (channel_conv S GRADIENT_MAGNITUDE x y Hwf Hx Hy) by
      (try reflexivity; try discriminate; exact Hc).
    assert (M : magnitude (width S) (height S) (data S) x y
                = flatMagnitude (luminance r g b)).
    { unfold magnitude, sobel.
      rewrite !(uniform_gray S r g b) by assumption. reflexivity. }
    cbn [convColor]. unfold gradientMagnitude. rewrite M.
    cbv beta iota zeta. repeat destruct (_ =? _); rewrite Hm; reflexivity.
  - rewrite (channel_conv S ZERO_CROSSING x y Hwf Hx Hy) by
      (try reflexivity; try discriminate; exact Hc).
    assert (L : zeroCrossing (width S) (height S) (data S) x y
                = let v := flatZeroCrossing (luminance r g b) in (v, v, v)).
    { unfold zeroCrossing, laplacian.
      rewrite !(uniform_gray S r g b) by assumption. reflexivity. }
    cbn [convColor]. rewrite L, Hz.
    cbv beta iota zeta. repeat destruct (_ =? _); reflexivity.
Qed.

(** C9: where the Sobel magnitude of a pixel exceeds 50 the skeleton view
    stores what the gradient magnitude view stores, on the three colour
    channels; where the magnitude is at most 50 it stores 0. *)
Theorem skeleton_threshold (S : ImageData) (x y c : Z) :
  wf S -> 0 <= x < width S -> 0 <= y < height S -> 0 <= c <= 2 ->
  let m := magnitude (width S) (height S) (data S) x y in
  channel (render atan2 S GRADIENT_MAGNITUDE) x y c
  = Some (ToUint8Clamp m) /\
  ((50 <? m)%float = true ->
   channel (render atan2 S SKELETON) x y c
   = channel (render atan2 S GRADIENT_MAGNITUDE) x y c) /\
  ((m <=? 50)%float = true ->
   channel (render atan2 S SKELETON) x y c = Some 0).
Proof.
  intros Hwf Hx Hy Hc m.
  rewrite (channel_conv S GRADIENT_MAGNITUDE x y Hwf Hx Hy) by
    (try reflexivity; try discriminate; exact Hc).
  rewrite (channel_conv S SKELETON x y Hwf Hx Hy) by
    (try reflexivity; try discriminate; exact Hc).
  cbn [convColor]. unfold gradientMagnitude, skeleton. fold m.
  split; [|split].
  - cbv beta iota zeta. repeat destruct (_ =? _); reflexivity.
  - intros ->. reflexivity.
  - intros Hle. rewrite (leb_ltb_false _ _ Hle).
    cbv beta iota zeta. repeat destruct (_ =? _); reflexivity.
Qed.

Section Canvas.

Variable drawImage : ImageData -> ImageData -> ImageData.

(** C5: the original view returns before touching the bitmap: the result
    is the source itself, and the canvas shows the image as drawn. *)
Theorem render_original (S : ImageData) :
  render atan2 S ORIGINAL = S /\
  forall img canvas,
    onload atan2 drawImage img ORIGINAL canvas
    = drawImage img (createImageData (width img) (height img)).
Proof. split; reflexivity. Qed.

End Canvas.

End Views.

(** ** The theorems at sample inputs *)

Ltac wf_by_computation :=
  split; [reflexivity..|]; cbn [data image2 image3 pixel1];
  repeat (constructor; [unfold byte; lia|]); constructor.

Lemma alpha_of_views_witness :
  wf image2 /\
  ((structural SKELETON = true ->
    channel (render atan2_const image2 SKELETON) 1 1 3 = Some 255) /\
   (perPixel SKELETON = true ->
    channel (render atan2_const image2 SKELETON) 1 1 3
    = channel image2 1 1 3)).
Proof.
  assert (W : wf image2).
  { wf_by_computation. }
  split; [exact W|].
  apply (alpha_of_views atan2_const image2 SKELETON 1 1 W); cbn; lia.
Defined.

(** C1 as stated fails: the grey view of a translucent pixel keeps the
    alpha 100 of the source. *)
Lemma alpha_kept_by_grayscale :
  wf pixel1 /\ GRAYSCALE <> ORIGINAL /\
  channel (render atan2_const pixel1 GRAYSCALE) 0 0 3 = Some 100.
Proof.
  split; [|split; [discriminate|vm_compute; reflexivity]].
  wf_by_computation.
Qed.

Lemma flat_field_witness :
  wf pixel1 /\ uniform pixel1 10 20 30 /\
  channel (render atan2_const pixel1 GRADIENT_MAGNITUDE) 0 0 2 = Some 0 /\
  channel (render atan2_const pixel1 ZERO_CROSSING) 0 0 2 = Some 128.
Proof.
  assert (W : wf pixel1).
  { wf_by_computation. }
  assert (U : uniform pixel1 10 20 30).
  { intros x y Hx Hy. cbn in Hx, Hy.
    assert (x = 0) as -> by lia. assert (y = 0) as -> by lia.
    repeat split; reflexivity. }
  split; [exact W|]. split; [exact U|].
  apply (flat_field atan2_const pixel1 10 20 30 0 0 2 W U); cbn; lia.
Defined.

(** C2 as stated fails: the zero-crossing view of a one-colour image is
    the mid-grey 128, not 0. *)
Lemma flat_zero_crossing_is_128 :
  wf pixel1 /\ uniform pixel1 10 20 30 /\
  channel (render atan2_const pixel1 ZERO_CROSSING) 0 0 0 = Some 128.
Proof.
  split; [|split; [|vm_compute; reflexivity]].
  - wf_by_computation.
  - intros x y Hx Hy. cbn in Hx, Hy.
    assert (x = 0) as -> by lia. assert (y = 0) as -> by lia.
    repeat split; reflexivity.
Qed.

Lemma channels_in_range_witness :
  wf image2 /\
  (forall v : float, 0 <= ToUint8Clamp v <= 255) /\
  Forall (fun b => 0 <= b <= 255) (data (render atan2_const image2 ECO)).
Proof.
  assert (W : wf image2).
  { wf_by_computation. }
  split; [exact W|].
  exact (channels_in_range atan2_const image2 ECO W).
Defined.

Lemma getPixelIndex_clamps_witness :
  0 < 1 /\ 0 < 1 /\
  getPixelIndex 1 1 (-1) 1
  = (clampTo 0 (1 - 1) 1 * 1 + clampTo 0 (1 - 1) (-1)) * 4 /\
  0 <= clampTo 0 (1 - 1) (-1) <= 1 - 1 /\
  0 <= clampTo 0 (1 - 1) 1 <= 1 - 1 /\
  0 <= getPixelIndex 1 1 (-1) 1 /\
  getPixelIndex 1 1 (-1) 1 + 3 < 1 * 1 * 4 /\
  (1 = 1 -> 1 = 1 ->
   getPixelIndex 1 1 (-1) 1 = 0 /\
   getGray (data pixel1) (getPixelIndex 1 1 (-1) 1)
   = getGray (data pixel1) 0).
Proof.
  split; [lia|]. split; [lia|].
  apply (getPixelIndex_clamps 1 1 (-1) 1 (data pixel1)); lia.
Defined.

Lemma skeleton_threshold_witness :
  wf image2 /\
  let m := magnitude 2 2 (data image2) 0 1 in
  channel (render atan2_const image2 GRADIENT_MAGNITUDE) 0 1 0
  = Some (ToUint8Clamp m) /\
  ((50 <? m)%float = true ->
   channel (render atan2_const image2 SKELETON) 0 1 0
   = channel (render atan2_const image2 GRADIENT_MAGNITUDE) 0 1 0) /\
  ((m <=? 50)%float = true ->
   channel (render atan2_const image2 SKELETON) 0 1 0 = Some 0).
Proof.
  assert (W : wf image2).
  { wf_by_computation. }
  split; [exact W|].
  apply (skeleton_threshold atan2_const image2 0 1 0 W); cbn; lia.
Defined.

(** ** The per-pixel loop, pixel by pixel *)

Section PointLoop.

Variables (type : ViewType) (d : list Z) (n : Z).
Hypothesis Hlen : Z.of_nat (length d) = n * 4.

(** The pixel [p] of [a] still holds the source colour. *)
Let untouched (p : Z) (a : list Z) : Prop :=
  forall c, 0 <= c <= 2 -> get a (p * 4 + c) = get d (p * 4 + c).

(** The pixel [p] of [a] holds the colour of the view. *)
Let filtered (p : Z) (a : list Z) : Prop :=
  forall c, 0 <= c <= 2 ->
    get a (p * 4 + c)
    = Some (ToUint8Clamp
        (let '(r, g, b) :=
           pointColor type (load d (p * 4)) (load d (p * 4 + 1))
             (load d (p * 4 + 2)) in
         if c =? 0 then r else if c =? 1 then g else b)).

Lemma load_ext (a : list Z) (i : Z) :
  get a i = get d i -> load a i = load d i.
Proof.
  unfold load, get. intros ->. reflexivity.
Qed.

Lemma pointBody_filters (q : Z) (a : list Z) :
  0 <= q < n -> length a = length d -> untouched q a ->
  filtered q (pointBody type (q * 4) a).
Proof.
  intros Hq Ha Hu c Hc. unfold pointBody.
  rewrite (load_ext a (q * 4)) by (rewrite <- (Z.add_0_r (q * 4)); apply Hu; lia).
  rewrite (load_ext a (q * 4 + 1)) by (apply Hu; lia).
  rewrite (load_ext a (q * 4 + 2)) by (apply Hu; lia).
  destruct (pointColor type _ _ _) as [[r g] b].
  destruct (get_store3_same a (q * 4) r g b) as (H0 & H1 & H2); [lia..|].
  assert (c = 0 \/ c = 1 \/ c = 2) as [-> | [-> | ->]] by lia;
    cbn [Z.eqb Pos.eqb].
  - rewrite Z.add_0_r. exact H0.
  - exact H1.
  - exact H2.
Qed.

Lemma pointBody_other (q p : Z) (a : list Z) (c : Z) :
  0 <= q -> 0 <= p -> p <> q -> 0 <= c <= 3 ->
  get (pointBody type (q * 4) a) (p * 4 + c) = get a (p * 4 + c).
Proof.
  intros Hq Hp Hne Hc. unfold pointBody. apply get_store3_other; lia.
Qed.

Lemma pointLoop_pixels (fuel : nat) :
  forall (q : Z) (a : list Z),
    0 <= q -> n * 4 - q * 4 <= Z.of_nat fuel ->
    length a = length d ->
    (forall p, 0 <= p < q -> filtered p a) ->
    (forall p, q <= p -> untouched p a) ->
    forall p, 0 <= p < n ->
      filtered p (for_loop fuel (q * 4) (n * 4) 4 (pointBody type) a).
Proof.
  induction fuel as [|fuel IH]; intros q a Hq Hfuel Ha Hdone Htodo p Hp.
  - simpl. apply Hdone. lia.
  - simpl. destruct (Z.ltb_spec (q * 4) (n * 4)) as [Hlt|Hge].
    + replace (q * 4 + 4) with ((q + 1) * 4) by lia.
      apply IH; try lia.
      * now rewrite pointBody_length.
      * intros p' Hp'. destruct (Z.eq_dec p' q) as [->|Hne].
        -- apply pointBody_filters; [lia|exact Ha|apply Htodo; lia].
        -- intros c Hc. rewrite pointBody_other by lia. apply Hdone; lia.
      * intros p' Hp' c Hc. rewrite pointBody_other by lia.
        apply Htodo; lia.
    + apply Hdone. lia.
Qed.

Lemma pointFilter_pixels (p : Z) :
  0 <= p < n -> filtered p (pointFilter type d).
Proof.
  intros Hp. unfold pointFilter, for_. rewrite Hlen.
  change 0 with (0 * 4) at 2.
  apply pointLoop_pixels; try lia; try reflexivity.
  intros p' Hp' c Hc. reflexivity.
Qed.

End PointLoop.

(** ** Further properties of the views *)

Section WaveletGrey.

Variables (w h : Z) (d : list Z).

Let sized (out : list Z) : Prop := Z.of_nat (length out) = w * h * 4.

(** Every pixel of [out] has the same byte on its three colour channels. *)
Let grey (out : list Z) : Prop :=
  forall p, 0 <= p < w * h ->
    exists v, forall c, 0 <= c <= 2 -> get out (p * 4 + c) = Some v.

Lemma storeGray_grey out q v :
  sized out -> grey out -> grey (storeGray out (q * 4) v).
Proof.
  intros Hs Hg p Hp. destruct (Z.eq_dec q p) as [->|Hne].
  - exists (ToUint8Clamp v). intros c Hc.
    apply get_storeGray_rgb; unfold sized in Hs; lia.
  - destruct (Hg p Hp) as [u Hu]. exists u. intros c Hc.
    rewrite get_storeGray_other by lia. now apply Hu.
Qed.

Lemma waveletBody_grey x y out :
  sized out -> grey out -> grey (waveletBody w h d x y out).
Proof.
  intros Hs Hg. unfold waveletBody.
  destruct (haar _ _ _ _) as [[[LL LH] HL] HH].
  assert (Sz : forall o idx v, sized o -> sized (storeGray o idx v)).
  { intros o idx v Ho. unfold sized. now rewrite length_storeGray. }
  unfold idxLL, idxLH, idxHL, idxHH.
  repeat (apply storeGray_grey; [now repeat apply Sz|]). exact Hg.
Qed.

Lemma wavelet_grey out : sized out -> grey out -> grey (wavelet w h d out).
Proof.
  intros Hs Hg. unfold wavelet. rewrite for_fold.
  apply (fold_inv _ (fun o => sized o /\ grey o)); [now split|].
  intros y a _ [Ha Hga]. rewrite for_fold.
  apply (fold_inv _ (fun o => sized o /\ grey o)); [now split|].
  intros x a' _ [Ha' Hga']. split.
  - unfold sized, waveletBody. destruct (haar _ _ _ _) as [[[LL LH] HL] HH].
    now rewrite !length_storeGray.
  - now apply waveletBody_grey.
Qed.

End WaveletGrey.

Section ByteChecks.

Lemma bytesZ_In (v : Z) : byte v -> In v bytesZ.
Proof.
  intros Hv. unfold bytesZ, byte in *. apply in_map_iff.
  exists (Z.to_nat v). split; [lia|]. apply in_seq. lia.
Qed.

Lemma eco_ok_byte (v : Z) : byte v -> eco_ok v = true.
Proof.
  assert (H : forallb eco_ok bytesZ = true) by (vm_compute; reflexivity).
  rewrite forallb_forall in H. intros Hv. apply H, bytesZ_In, Hv.
Qed.

Lemma gray_fixed_ok_byte (v : Z) : byte v -> gray_fixed_ok v = true.
Proof.
  assert (H : forallb gray_fixed_ok bytesZ = true) by (vm_compute; reflexivity).
  rewrite forallb_forall in H. intros Hv. apply H, bytesZ_In, Hv.
Qed.

Lemma hsv_gray_ok_byte (v : Z) : byte v -> hsv_gray_ok v = true.
Proof.
  assert (H : forallb hsv_gray_ok bytesZ = true) by (vm_compute; reflexivity).
  rewrite forallb_forall in H. intros Hv. apply H, bytesZ_In, Hv.
Qed.

End ByteChecks.

Section Images.

Lemma rgbAt_channels (S : ImageData) (x y r g b : Z) :
  rgbAt S x y = Some (r, g, b) <->
  channel S x y 0 = Some r /\ channel S x y 1 = Some g /\
  channel S x y 2 = Some b.
Proof.
  unfold rgbAt.
  destruct (channel S x y 0), (channel S x y 1), (channel S x y 2);
    split; try (intros [= -> -> ->]; auto); try (intros (E & F & G));
    congruence.
Qed.

Lemma channel_in_range (S : ImageData) (x y c : Z) :
  wf S -> 0 <= x < width S -> 0 <= y < height S -> 0 <= c <= 3 ->
  exists v, channel S x y c = Some v /\ byte v.
Proof.
  intros [Hw Hh Hlen Hb] Hx Hy Hc. unfold channel, get.
  pose proof (pixel_index_range _ _ x y Hx Hy).
  destruct (lookup_lt_is_Some_2 (data S)
              (Z.to_nat ((y * width S + x) * 4 + c))) as [v Hv]; [lia|].
  exists v. split; [exact Hv|]. eapply Forall_lookup_1; eassumption.
Qed.

Lemma rgbAt_in_range (S : ImageData) (x y : Z) :
  wf S -> 0 <= x < width S -> 0 <= y < height S ->
  exists r g b, rgbAt S x y = Some (r, g, b) /\ byte r /\ byte g /\ byte b.
Proof.
  intros Hwf Hx Hy.
  destruct (channel_in_range S x y 0 Hwf Hx Hy) as (r & Hr & Br); [lia|].
  destruct (channel_in_range S x y 1 Hwf Hx Hy) as (g & Hg & Bg); [lia|].
  destruct (channel_in_range S x y 2 Hwf Hx Hy) as (b & Hb & Bb); [lia|].
  exists r, g, b. split; [|auto]. apply rgbAt_channels. auto.
Qed.

(** Two well-formed images of the same dimensions with the same bytes at
    every pixel are the same image. *)
Lemma image_ext (S1 S2 : ImageData) :
  wf S1 -> wf S2 -> width S1 = width S2 -> height S1 = height S2 ->
  (forall x y c, 0 <= x < width S1 -> 0 <= y < height S1 -> 0 <= c <= 3 ->
     channel S1 x y c = channel S2 x y c) ->
  S1 = S2.
Proof.
  destruct S1 as [w1 h1 d1], S2 as [w2 h2 d2].
  intros [Hw1 Hh1 Hl1 _] [Hw2 Hh2 Hl2 _]. cbn in *. intros <- <- H.
  f_equal. apply list_eq. intros i.
  destruct (Nat.lt_ge_cases i (length d1)) as [Hi|Hi].
  - set (p := Z.of_nat i / 4). set (c := Z.of_nat i mod 4).
    assert (Ei : Z.of_nat i = (p / w1 * w1 + p mod w1) * 4 + c).
    { subst p c. pose proof (Z.div_mod (Z.of_nat i / 4) w1).
      pose proof (Z.div_mod (Z.of_nat i) 4). lia. }
    assert (Hp : 0 <= p < w1 * h1) by (subst p; div_lia).
    assert (Hc : 0 <= c <= 3) by (subst c; div_lia).
    assert (Hx : 0 <= p mod w1 < w1) by (apply Z.mod_pos_bound; lia).
    assert (Hy : 0 <= p / w1 < h1).
    { split; [apply Z.div_pos; lia|]. apply Z.div_lt_upper_bound; lia. }
    specialize (H (p mod w1) (p / w1) c Hx Hy Hc).
    unfold channel, get in H. cbn in H. rewrite <- Ei, Nat2Z.id in H.
    exact H.
  - rewrite !lookup_ge_None_2; [reflexivity|lia..].
Qed.

End Images.

Section MoreViews.

Variable atan2 : float -> float -> float.

Lemma render_keeps_wf (S : ImageData) (V : ViewType) :
  wf S ->
  wf (render atan2 S V) /\
  width (render atan2 S V) = width S /\
  height (render atan2 S V) = height S.
Proof.
  intros [Hw Hh Hlen Hb].
  pose proof (createImageData_sized _ _ Hw Hh) as Hs.
  pose proof (createImageData_bytes (width S) (height S)) as Hz.
  destruct V; (split; [|split; reflexivity]);
    cbn [render perPixel structural]; split; cbn [width height data];
    try assumption.
  all: first [ now rewrite pointFilter_length
             | now apply pointFilter_bytes
             | now apply conv_sized
             | now apply conv_bytes
             | now apply wavelet_sized
             | now apply wavelet_bytes ].
Qed.

(** X1: every view keeps the dimensions of the source and yields a
    well-formed buffer. *)
Theorem render_wf (S : ImageData) (V : ViewType) :
  wf S ->
  wf (render atan2 S V) /\
  width (render atan2 S V) = width S /\
  height (render atan2 S V) = height S.
Proof. exact (render_keeps_wf S V). Qed.

Lemma render_perPixel (S : ImageData) (V : ViewType) :
  perPixel V = true ->
  render atan2 S V
  = mkImageData (width S) (height S) (pointFilter V (data S)).
Proof. destruct V; try discriminate; reflexivity. Qed.

Lemma channel_alpha_perPixel (S : ImageData) (V : ViewType) (x y : Z) :
  perPixel V = true -> 0 <= x < width S -> 0 <= y < height S ->
  channel (render atan2 S V) x y 3 = channel S x y 3.
Proof.
  intros HV Hx Hy. rewrite render_perPixel by exact HV.
  unfold channel. cbn [width data].
  apply pointFilter_alpha. nia.
Qed.

Lemma rgbAt_perPixel (S : ImageData) (V : ViewType) (x y r g b : Z) :
  wf S -> perPixel V = true ->
  0 <= x < width S -> 0 <= y < height S ->
  rgbAt S x y = Some (r, g, b) ->
  rgbAt (render atan2 S V) x y
  = Some (stored (pointColor V (Z2F r) (Z2F g) (Z2F b))).
Proof.
  intros Hwf HV Hx Hy Hrgb. destruct Hwf as [Hw Hh Hlen Hb].
  apply rgbAt_channels in Hrgb. destruct Hrgb as (Hr & Hg & Hbl).
  unfold channel in Hr, Hg, Hbl. rewrite Z.add_0_r in Hr.
  pose proof (pixel_index_range _ _ x y Hx Hy) as Hp.
  pose proof (pointFilter_pixels V (data S) (width S * height S) Hlen
                (y * width S + x) Hp) as F.
  pose proof (F 0 ltac:(lia)) as F0. pose proof (F 1 ltac:(lia)) as F1.
  pose proof (F 2 ltac:(lia)) as F2. clear F.
  rewrite (load_get _ _ r), (load_get _ _ g), (load_get _ _ b) in F0, F1, F2
    by (first [assumption | lia]).
  rewrite render_perPixel by exact HV.
  apply rgbAt_channels. unfold channel. cbn [width data].
  rewrite F0, F1, F2.
  destruct (pointColor V (Z2F r) (Z2F g) (Z2F b)) as [[r' g'] b'].
  repeat split; reflexivity.
Qed.

(** X2: a per-pixel view gives each pixel the colour computed from the
    source pixel at the same place and from nothing else: updating the
    buffer in place does not disturb the pixels still to be read. *)
Theorem per_pixel_view (S : ImageData) (V : ViewType) (x y r g b : Z) :
  wf S -> perPixel V = true ->
  0 <= x < width S -> 0 <= y < height S ->
  rgbAt S x y = Some (r, g, b) ->
  rgbAt (render atan2 S V) x y
  = Some (stored (pointColor V (Z2F r) (Z2F g) (Z2F b))).
Proof. exact (rgbAt_perPixel S V x y r g b). Qed.

(** X3: the binary view makes a pixel white where its luminance exceeds
    128 and black elsewhere. *)
Theorem binary_black_or_white (S : ImageData) (x y r g b : Z) :
  wf S -> 0 <= x < width S -> 0 <= y < height S ->
  rgbAt S x y = Some (r, g, b) ->
  rgbAt (render atan2 S BINARY) x y
  = Some (if (128 <? luminance r g b)%float
          then (255, 255, 255) else (0, 0, 0)).
Proof.
  intros Hwf Hx Hy Hrgb.
  rewrite (rgbAt_perPixel S BINARY x y r g b) by (assumption || reflexivity).
  cbn [pointColor]. unfold binary. fold (luminance r g b).
  destruct (128 <? luminance r g b)%float; reflexivity.
Qed.

(** X4: the heat map never mixes red and blue: every pixel has a zero red
    byte or a zero blue byte. *)
Theorem heatmap_red_or_blue_zero (S : ImageData) (x y r g b : Z) :
  wf S -> 0 <= x < width S -> 0 <= y < height S ->
  rgbAt (render atan2 S HEATMAP) x y = Some (r, g, b) ->
  r = 0 \/ b = 0.
Proof.
  intros Hwf Hx Hy.
  destruct (rgbAt_in_range S x y Hwf Hx Hy) as (r0 & g0 & b0 & E & _).
  rewrite (rgbAt_perPixel S HEATMAP x y r0 g0 b0)
    by (assumption || reflexivity).
  cbn [pointColor]. unfold heatmap.
  destruct (_ <? 0.5)%float; intros [= <- <- <-]; [left|right]; reflexivity.
Qed.

(** X5: the eco view in integers: red and blue are scaled by 4/5 and green
    by 6/5, rounded to the nearest byte, green saturating at 255. *)
Theorem eco_tint (S : ImageData) (x y r g b : Z) :
  wf S -> 0 <= x < width S -> 0 <= y < height S ->
  rgbAt S x y = Some (r, g, b) ->
  rgbAt (render atan2 S ECO) x y
  = Some ((8 * r + 5) / 10, Z.min 255 ((12 * g + 5) / 10), (8 * b + 5) / 10).
Proof.
  intros Hwf Hx Hy Hrgb.
  destruct (rgbAt_in_range S x y Hwf Hx Hy) as (r0 & g0 & b0 & E & Br & Bg & Bb).
  rewrite Hrgb in E. injection E as <- <- <-.
  rewrite (rgbAt_perPixel S ECO x y r g b) by (assumption || reflexivity).
  cbn [pointColor]. unfold eco, stored. cbn [fst snd].
  pose proof (eco_ok_byte r Br) as Cr. pose proof (eco_ok_byte g Bg) as Cg.
  pose proof (eco_ok_byte b Bb) as Cb. unfold eco_ok in *.
  apply andb_prop in Cr, Cg, Cb.
  destruct Cr as [Cr _], Cg as [_ Cg], Cb as [Cb _].
  apply Z.eqb_eq in Cr, Cg, Cb. now rewrite Cr, Cg, Cb.
Qed.

(** X6: the grey view and the binary view are idempotent: the view of
    their own result is that result. *)
Theorem grey_views_idempotent (S : ImageData) (V : ViewType) :
  wf S -> V = GRAYSCALE \/ V = BINARY ->
  render atan2 (render atan2 S V) V = render atan2 S V.
Proof.
  intros Hwf HV.
  assert (HP : perPixel V = true) by (destruct HV as [-> | ->]; reflexivity).
  destruct (render_keeps_wf S V Hwf) as (Hwf1 & Ew & Eh).
  destruct (render_keeps_wf (render atan2 S V) V Hwf1) as (Hwf2 & Ew2 & Eh2).
  apply image_ext; try assumption.
  intros x y c Hx Hy Hc. rewrite Ew2 in Hx. rewrite Eh2 in Hy.
  destruct (Z.eq_dec c 3) as [->|Hne].
  - rewrite !(channel_alpha_perPixel _ V) by (assumption || lia).
    reflexivity.
  - destruct (rgbAt_in_range S x y Hwf) as (r & g & b & E & Br & Bg & Bb);
      [lia..|].
    pose proof (rgbAt_perPixel S V x y r g b Hwf HP) as E1.
    rewrite <- Ew, <- Eh in E1. specialize (E1 Hx Hy E).
    assert (Fix : rgbAt (render atan2 (render atan2 S V) V) x y
                  = rgbAt (render atan2 S V) x y).
    { destruct (stored (pointColor V (Z2F r) (Z2F g) (Z2F b)))
        as [[r1 g1] b1] eqn:Est.
      rewrite (rgbAt_perPixel _ V x y r1 g1 b1 Hwf1 HP Hx Hy E1), E1.
      f_equal. destruct HV as [-> | ->].
      - cbn [pointColor] in Est. unfold grayscale, stored in Est.
        cbn [fst snd] in Est. injection Est as <- <- <-.
        pose proof (gray_fixed_ok_byte _ (ToUint8Clamp_byte
          (0.299 * Z2F r + 0.587 * Z2F g + 0.114 * Z2F b)%float)) as G.
        unfold gray_fixed_ok in G.
        destruct (stored _) as [[a1 a2] a3].
        apply andb_prop in G. destruct G as [G G3].
        apply andb_prop in G. destruct G as [G1 G2].
        apply Z.eqb_eq in G1, G2, G3. congruence.
      - cbn [pointColor] in Est. unfold binary in Est.
        destruct (128 <? _)%float; injection Est as <- <- <-;
          vm_compute; reflexivity. }
    assert (c = 0 \/ c = 1 \/ c = 2) as Hc3 by lia.
    destruct (rgbAt (render atan2 S V) x y) as [[[r1 g1] b1]|] eqn:E2;
      [|discriminate].
    apply rgbAt_channels in Fix, E2.
    destruct Fix as (F0 & F1 & F2), E2 as (G0 & G1 & G2).
    destruct Hc3 as [-> | [-> | ->]]; congruence.
Qed.

(** X7: the HSV view of a grey pixel has no hue and no saturation, and
    its value is the grey level. *)
Theorem hsv_of_grey (S : ImageData) (x y v : Z) :
  wf S -> 0 <= x < width S -> 0 <= y < height S ->
  rgbAt S x y = Some (v, v, v) ->
  rgbAt (render atan2 S HSV) x y = Some (0, 0, v).
Proof.
  intros Hwf Hx Hy Hrgb.
  destruct (rgbAt_in_range S x y Hwf Hx Hy) as (r0 & g0 & b0 & E & Br & _).
  rewrite Hrgb in E. injection E as <- <- <-.
  rewrite (rgbAt_perPixel S HSV x y v v v) by (assumption || reflexivity).
  pose proof (hsv_gray_ok_byte v Br) as G. unfold hsv_gray_ok in G.
  destruct (stored _) as [[a1 a2] a3].
  apply andb_prop in G. destruct G as [G G3].
  apply andb_prop in G. destruct G as [G1 G2].
  apply Z.eqb_eq in G1, G2, G3. congruence.
Qed.

End MoreViews.

Section MoreStructural.

Variable atan2 : float -> float -> float.

Lemma rgbAt_conv (S : ImageData) (V : ViewType) (x y : Z) :
  wf S -> 0 <= x < width S -> 0 <= y < height S ->
  perPixel V = false -> structural V = true -> V <> WAVELET ->
  rgbAt (render atan2 S V) x y
  = Some (stored (convColor atan2 (width S) (height S) (data S) V x y)).
Proof.
  intros Hwf Hx Hy HP HS HW. apply rgbAt_channels.
  rewrite !(channel_conv atan2 S V x y Hwf Hx Hy HP HS HW) by lia.
  destruct (convColor _ _ _ _ _ _ _) as [[r g] b]. repeat split; reflexivity.
Qed.

(** X8: the grey, binary, X-ray, skeleton, gradient magnitude,
    zero-crossing and wavelet views are achromatic: the three colour bytes
    of every pixel are equal. *)
Theorem achromatic_views (S : ImageData) (V : ViewType) (x y : Z) :
  wf S -> achromatic V = true ->
  0 <= x < width S -> 0 <= y < height S ->
  exists v, rgbAt (render atan2 S V) x y = Some (v, v, v).
Proof.
  intros Hwf HV Hx Hy.
  destruct (rgbAt_in_range S x y Hwf Hx Hy) as (r & g & b & E & _).
  destruct V; try discriminate HV.
  - rewrite (rgbAt_perPixel atan2 S GRAYSCALE x y r g b)
      by (assumption || reflexivity).
    eexists. reflexivity.
  - rewrite rgbAt_conv by (assumption || reflexivity || discriminate).
    eexists. reflexivity.
  - rewrite (rgbAt_perPixel atan2 S XRAY x y r g b)
      by (assumption || reflexivity).
    eexists. reflexivity.
  - rewrite (rgbAt_perPixel atan2 S BINARY x y r g b)
      by (assumption || reflexivity).
    cbn [pointColor]. unfold binary. eexists. reflexivity.
  - rewrite rgbAt_conv by (assumption || reflexivity || discriminate).
    eexists. reflexivity.
  - rewrite rgbAt_conv by (assumption || reflexivity || discriminate).
    eexists. reflexivity.
  - destruct Hwf as [Hw Hh Hlen Hb].
    pose proof (createImageData_sized _ _ Hw Hh) as Hs.
    pose proof (pixel_index_range _ _ x y Hx Hy) as Hp.
    destruct (wavelet_grey (width S) (height S) (data S)
                (data (createImageData (width S) (height S))) Hs)
      with (p := y * width S + x) as [v Hv]; [|exact Hp|].
    + intros p Hp'. exists 0. intros c Hc. unfold get. cbn [data createImageData].
      apply lookup_replicate_2. lia.
    + exists v. apply rgbAt_channels. unfold channel.
      cbn [render perPixel structural width data].
      repeat split; apply Hv; lia.
Qed.

Lemma rgbAt_blueprint (S : ImageData) (x y : Z) :
  wf S -> 0 <= x < width S -> 0 <= y < height S ->
  rgbAt (render atan2 S BLUEPRINT) x y
  = Some (if (30 <? magnitude (width S) (height S) (data S) x y)%float
          then (255, 255, 255) else (30, 64, 175)).
Proof.
  intros Hwf Hx Hy.
  rewrite rgbAt_conv by (assumption || reflexivity || discriminate).
  cbn [convColor]. unfold blueprint.
  destruct (30 <? magnitude _ _ _ _ _)%float; reflexivity.
Qed.

(** X9: the blueprint view has two colours: white where the Sobel
    magnitude exceeds 30 and the ink blue (30, 64, 175) elsewhere. *)
Theorem blueprint_two_colours (S : ImageData) (x y : Z) :
  wf S -> 0 <= x < width S -> 0 <= y < height S ->
  rgbAt (render atan2 S BLUEPRINT) x y
  = Some (if (30 <? magnitude (width S) (height S) (data S) x y)%float
          then (255, 255, 255) else (30, 64, 175)).
Proof. exact (rgbAt_blueprint S x y). Qed.

(** X10: the skeleton is inside the blueprint's edges: a pixel that the
    skeleton view does not leave black is white in the blueprint view. *)
Theorem skeleton_within_blueprint (S : ImageData) (x y : Z) :
  wf S -> 0 <= x < width S -> 0 <= y < height S ->
  rgbAt (render atan2 S SKELETON) x y <> Some (0, 0, 0) ->
  rgbAt (render atan2 S BLUEPRINT) x y = Some (255, 255, 255).
Proof.
  intros Hwf Hx Hy. rewrite rgbAt_blueprint by assumption.
  rewrite rgbAt_conv by (assumption || reflexivity || discriminate).
  cbn [convColor]. unfold skeleton.
  destruct (50 <? magnitude _ _ _ _ _)%float eqn:E.
  - intros _.
    rewrite (ltb_trans 30 50 _ eq_refl E). reflexivity.
  - intros H. exfalso. apply H. reflexivity.
Qed.

(** The channels of the gradient magnitude and zero-crossing views of a
    one-colour source. *)
Lemma flat_channels (S : ImageData) (r g b x y c : Z) :
  wf S -> uniform S r g b ->
  0 <= x < width S -> 0 <= y < height S -> 0 <= c <= 2 ->
  channel (render atan2 S GRADIENT_MAGNITUDE) x y c = Some 0 /\
  channel (render atan2 S ZERO_CROSSING) x y c = Some 128.
Proof.
  intros Hwf Hu Hx Hy Hc.
  destruct (uniform_bytes S r g b Hwf Hu) as (Br & Bg & Bb).
  pose proof (flat_ok_luminance r g b Br Bg Bb) as Hflat.
  unfold flat_ok in Hflat. apply andb_prop in Hflat.
  destruct Hflat as [Hm Hz].
  apply ToUint8Clamp_small in Hm. apply eqb_128 in Hz.
  split.
  - rewrite (channel_conv atan2 S GRADIENT_MAGNITUDE x y Hwf Hx Hy) by
      (try reflexivity; try discriminate; exact Hc).
    assert (M : magnitude (width S) (height S) (data S) x y
                = flatMagnitude (luminance r g b)).
    { unfold magnitude, sobel.
      rewrite !(uniform_gray S r g b) by assumption. reflexivity. }
    cbn [convColor]. unfold gradientMagnitude. rewrite M.
    cbv beta iota zeta. repeat destruct (_ =? _); rewrite Hm; reflexivity.
  - rewrite (channel_conv atan2 S ZERO_CROSSING x y Hwf Hx Hy) by
      (try reflexivity; try discriminate; exact Hc).
    assert (L : zeroCrossing (width S) (height S) (data S) x y
                = let v := flatZeroCrossing (luminance r g b) in (v, v, v)).
    { unfold zeroCrossing, laplacian.
      rewrite !(uniform_gray S r g b) by assumption. reflexivity. }
    cbn [convColor]. rewrite L, Hz.
    cbv beta iota zeta. repeat destruct (_ =? _); reflexivity.
Qed.

Lemma uniform_magnitude (S : ImageData) (r g b x y : Z) :
  wf S -> uniform S r g b ->
  (magnitude (width S) (height S) (data S) x y <? 0.5)%float = true /\
  sobel (width S) (height S) (data S) x y
  = (let g0 := luminance r g b in
     ((-1) * g0 + 1 * g0 + (-2) * g0 + 2 * g0 + (-1) * g0 + 1 * g0,
      (-1) * g0 + (-2) * g0 + (-1) * g0 + 1 * g0 + 2 * g0 + 1 * g0))%float.
Proof.
  intros Hwf Hu.
  destruct (uniform_bytes S r g b Hwf Hu) as (Br & Bg & Bb).
  pose proof (flat_ok_luminance r g b Br Bg Bb) as Hflat.
  unfold flat_ok in Hflat. apply andb_prop in Hflat.
  destruct Hflat as [Hm _].
  assert (E : sobel (width S) (height S) (data S) x y
    = (let g0 := luminance r g b in
     ((-1) * g0 + 1 * g0 + (-2) * g0 + 2 * g0 + (-1) * g0 + 1 * g0,
      (-1) * g0 + (-2) * g0 + (-1) * g0 + 1 * g0 + 2 * g0 + 1 * g0))%float).
  { unfold sobel. rewrite !(uniform_gray S r g b) by assumption. reflexivity. }
  split; [|exact E]. unfold magnitude. rewrite E. exact Hm.
Qed.

Lemma flat_edges (S : ImageData) (r g b x y : Z) :
  wf S -> uniform S r g b ->
  0 <= x < width S -> 0 <= y < height S ->
  rgbAt (render atan2 S SKELETON) x y = Some (0, 0, 0) /\
  rgbAt (render atan2 S BLUEPRINT) x y = Some (30, 64, 175) /\
  rgbAt (render atan2 S GRADIENT_DIRECTION) x y = Some (0, 0, 0).
Proof.
  intros Hwf Hu Hx Hy.
  destruct (uniform_magnitude S r g b x y Hwf Hu) as [Hm Hsobel].
  split; [|split].
  - rewrite rgbAt_conv by (assumption || reflexivity || discriminate).
    cbn [convColor]. unfold skeleton.
    rewrite (ltb_ltb_false _ _ (ltb_trans _ 0.5 50 Hm eq_refl)).
    reflexivity.
  - rewrite rgbAt_blueprint by assumption.
    rewrite (ltb_ltb_false _ _ (ltb_trans _ 0.5 30 Hm eq_refl)).
    reflexivity.
  - rewrite rgbAt_conv by (assumption || reflexivity || discriminate).
    cbn [convColor]. unfold gradientDirection.
    unfold magnitude in Hm.
    destruct (sobel (width S) (height S) (data S) x y) as [gx gy].
    cbv zeta.
    destruct (match rem6 _ with Some _ => _ | None => _ end) as [[r' g'] b'].
    rewrite (ltb_trans _ 0.5 20 Hm eq_refl). reflexivity.
Qed.

(** X11: on a source of one colour the edge views find nothing: the
    skeleton view and the gradient direction view are black and the
    blueprint view is the ink blue everywhere. *)
Theorem flat_field_has_no_edges (S : ImageData) (r g b x y : Z) :
  wf S -> uniform S r g b ->
  0 <= x < width S -> 0 <= y < height S ->
  rgbAt (render atan2 S SKELETON) x y = Some (0, 0, 0) /\
  rgbAt (render atan2 S BLUEPRINT) x y = Some (30, 64, 175) /\
  rgbAt (render atan2 S GRADIENT_DIRECTION) x y = Some (0, 0, 0).
Proof. exact (flat_edges S r g b x y). Qed.

End MoreStructural.

Section WaveletQuadrants.

Variables (w h : Z) (d : list Z).
Hypotheses (Hw : 0 < w) (Hh : 0 < h).
Hypotheses (Ew : w = 2 * (w / 2)) (Eh : h = 2 * (h / 2)).

Let sized (out : list Z) : Prop := Z.of_nat (length out) = w * h * 4.

(** The pixel [(a, b)] of [out] is the grey [v]. *)
Let greyAt (out : list Z) (a b : Z) (v : float) : Prop :=
  forall c, 0 <= c <= 2 ->
    get out ((b * w + a) * 4 + c) = Some (ToUint8Clamp v).

Lemma getPixelIndex_inside x y :
  0 <= x < w -> 0 <= y < h -> getPixelIndex w h x y = (y * w + x) * 4.
Proof. intros Hx Hy. unfold getPixelIndex. lia. Qed.

Lemma storeGray_sets out a b v :
  sized out -> 0 <= a < w -> 0 <= b < h ->
  greyAt (storeGray out ((b * w + a) * 4) v) a b v.
Proof.
  intros Hs Ha Hb c Hc. pose proof (pixel_index_range w h a b Ha Hb).
  apply get_storeGray_rgb; unfold sized in Hs; lia.
Qed.

Lemma storeGray_keeps out a b v a' b' v' :
  0 <= a < w -> 0 <= a' < w -> 0 <= b -> 0 <= b' ->
  a <> a' \/ b <> b' ->
  greyAt out a b v -> greyAt (storeGray out ((b' * w + a') * 4) v') a b v.
Proof.
  intros Ha Ha' Hb Hb' Hne Hg c Hc.
  assert (b' * w + a' <> b * w + a).
  { intros E. destruct (pixel_index_inj w a' b' a b Ha' Ha E). lia. }
  assert (0 <= b * w + a) by nia.
  rewrite get_storeGray_other by lia. now apply Hg.
Qed.

(** The four coefficients of the block [(i, j)] are in the four
    quadrants of [out]. *)
Let block (i j : Z) (out : list Z) : Prop :=
  match haar (getGray d (getPixelIndex w h (2 * i) (2 * j)))
             (getGray d (getPixelIndex w h (2 * i + 1) (2 * j)))
             (getGray d (getPixelIndex w h (2 * i) (2 * j + 1)))
             (getGray d (getPixelIndex w h (2 * i + 1) (2 * j + 1))) with
  | (LL, LH, HL, HH) =>
      greyAt out i j LL /\ greyAt out (i + w / 2) j LH /\
      greyAt out i (j + h / 2) HL /\ greyAt out (i + w / 2) (j + h / 2) HH
  end.

Lemma waveletBody_block i j x y out :
  0 <= i < w / 2 -> 0 <= j < h / 2 ->
  In x (range 0 w 2) -> In y (range 0 h 2) -> sized out ->
  (x = 2 * i /\ y = 2 * j) \/ block i j out ->
  block i j (waveletBody w h d x y out).
Proof.
  intros Hi Hj Hx Hy Hs Hq.
  apply range_2 in Hx. apply range_2 in Hy.
  destruct Hx as [Hx Ex], Hy as [Hy Ey].
  assert (Sz : forall o idx v, sized o -> sized (storeGray o idx v)).
  { intros o idx v Ho. unfold sized. now rewrite length_storeGray. }
  destruct (Z.eq_dec x (2 * i)) as [->|Hnx];
    [destruct (Z.eq_dec y (2 * j)) as [->|Hny]|].
  - clear Hq. unfold block, waveletBody.
    destruct (haar _ _ _ _) as [[[LL LH] HL] HH].
    unfold idxLL, idxLH, idxHL, idxHH.
    replace (2 * i / 2) with i by lia. replace (2 * j / 2) with j by lia.
    repeat split.
    + do 3 (apply storeGray_keeps; [lia..|]).
      apply storeGray_sets; [exact Hs|lia..].
    + do 2 (apply storeGray_keeps; [lia..|]).
      apply storeGray_sets; [now repeat apply Sz|lia..].
    + apply storeGray_keeps; [lia..|].
      apply storeGray_sets; [now repeat apply Sz|lia..].
    + apply storeGray_sets; [now repeat apply Sz|lia..].
  - destruct Hq as [[_ ?]|Hq]; [lia|].
    unfold block in *. unfold waveletBody at 1.
    destruct (haar (getGray d (getPixelIndex w h (2 * i) y)) _ _ _)
      as [[[LL' LH'] HL'] HH'].
    destruct (haar _ _ _ _) as [[[LL LH] HL] HH].
    destruct Hq as (Q1 & Q2 & Q3 & Q4).
    unfold idxLL, idxLH, idxHL, idxHH.
    replace (2 * i / 2) with i by lia.
    repeat split; do 4 (apply storeGray_keeps; [lia..|]); assumption.
  - destruct Hq as [[? _]|Hq]; [lia|].
    unfold block in *. unfold waveletBody at 1.
    destruct (haar (getGray d (getPixelIndex w h x y)) _ _ _)
      as [[[LL' LH'] HL'] HH'].
    destruct (haar _ _ _ _) as [[[LL LH] HL] HH].
    destruct Hq as (Q1 & Q2 & Q3 & Q4).
    unfold idxLL, idxLH, idxHL, idxHH.
    repeat split; do 4 (apply storeGray_keeps; [lia..|]); assumption.
Qed.

Lemma wavelet_block i j out :
  0 <= i < w / 2 -> 0 <= j < h / 2 -> sized out ->
  block i j (wavelet w h d out).
Proof.
  intros Hi Hj Hs. unfold wavelet. rewrite for_fold.
  assert (Hx : In (2 * i) (range 0 w 2)) by (apply range_2; div_lia).
  assert (Hy : In (2 * j) (range 0 h 2)) by (apply range_2; div_lia).
  apply (fold_establish _ sized (block i j) _ (2 * j));
    [exact Hy| | | |exact Hs].
  - intros y' a _ Ha. rewrite for_fold. apply fold_inv; [exact Ha|].
    intros x' a' _. apply waveletBody_sized.
  - intros a Ha. rewrite for_fold.
    apply (fold_establish _ sized (block i j) _ (2 * i));
      [exact Hx| | | |exact Ha].
    + intros x' a' _. apply waveletBody_sized.
    + intros a' Ha'. apply waveletBody_block; auto.
    + intros x' a' Hx' Ha' Hq. apply waveletBody_block; auto.
  - intros y' a Hy' Ha Hq. rewrite for_fold.
    apply (fold_inv _ (fun o => sized o /\ block i j o)); [now split|].
    intros x' a' Hx' [Ha' Hq']. split.
    + now apply waveletBody_sized.
    + apply waveletBody_block; auto.
Qed.

End WaveletQuadrants.

Section SourceAlpha.

Variable atan2 : float -> float -> float.

Lemma for_loop_ext {A : Type} (body1 body2 : Z -> A -> A) (stop step : Z) :
  (forall i a, body1 i a = body2 i a) ->
  forall (fuel : nat) i a,
    for_loop fuel i stop step body1 a = for_loop fuel i stop step body2 a.
Proof.
  intros H. induction fuel as [|fuel IH]; intros i a; simpl; [reflexivity|].
  destruct (i <? stop); [|reflexivity]. rewrite H. apply IH.
Qed.

Lemma for_ext {A : Type} (body1 body2 : Z -> A -> A) (start stop step : Z) a :
  (forall i a, body1 i a = body2 i a) ->
  for_ start stop step body1 a = for_ start stop step body2 a.
Proof. intros H. now apply for_loop_ext. Qed.

Variables (w h : Z) (d1 d2 : list Z).
Hypotheses (Hw : 0 < w) (Hh : 0 < h).
Hypothesis Hrgb :
  forall p c, 0 <= p < w * h -> 0 <= c <= 2 ->
    get d1 (p * 4 + c) = get d2 (p * 4 + c).

Lemma getGray_same_rgb x y :
  getGray d1 (getPixelIndex w h x y) = getGray d2 (getPixelIndex w h x y).
Proof.
  destruct (getPixelIndex_clampTo w h x y d1 Hw Hh) as (E & Bx & By & _).
  rewrite E.
  set (p := clampTo 0 (h - 1) y * w + clampTo 0 (w - 1) x).
  assert (Hp : 0 <= p < w * h) by (subst p; nia).
  unfold getGray.
  rewrite (load_ext d2 d1 (p * 4)), (load_ext d2 d1 (p * 4 + 1)),
    (load_ext d2 d1 (p * 4 + 2)); [reflexivity|..].
  - apply Hrgb; lia.
  - apply Hrgb; lia.
  - rewrite <- (Z.add_0_r (p * 4)). apply Hrgb; lia.
Qed.

Lemma convColor_same_rgb V x y :
  convColor atan2 w h d1 V x y = convColor atan2 w h d2 V x y.
Proof.
  assert (Sobel : sobel w h d1 x y = sobel w h d2 x y).
  { unfold sobel. now rewrite !getGray_same_rgb. }
  destruct V; cbn [convColor];
    unfold gradientMagnitude, skeleton, blueprint, gradientDirection,
      magnitude, zeroCrossing, laplacian;
    rewrite ?Sobel, ?getGray_same_rgb; try reflexivity.
  unfold featureMap.
  match goal with
  | |- match ?A with _ => _ end = match ?B with _ => _ end =>
      assert (E : A = B); [|rewrite E; reflexivity]
  end.
  apply for_ext. intros ky acc. apply for_ext. intros kx [[sum sqSum] count].
  now rewrite getGray_same_rgb.
Qed.

Lemma conv_same_rgb V out :
  conv atan2 w h d1 V out = conv atan2 w h d2 V out.
Proof.
  unfold conv. apply for_ext. intros y a. apply for_ext. intros x a'.
  unfold convBody. now rewrite convColor_same_rgb.
Qed.

Lemma wavelet_same_rgb out : wavelet w h d1 out = wavelet w h d2 out.
Proof.
  unfold wavelet. apply for_ext. intros y a. apply for_ext. intros x a'.
  unfold waveletBody. now rewrite !getGray_same_rgb.
Qed.

End SourceAlpha.

Section StructuralTheorems.

Variable atan2 : float -> float -> float.

(** X12: a structural view does not read the alpha of the source: two
    sources of the same dimensions and the same colours give the same
    view, whatever their alpha bytes are. *)
Theorem structural_ignores_alpha (S1 S2 : ImageData) (V : ViewType) :
  wf S1 -> wf S2 -> width S1 = width S2 -> height S1 = height S2 ->
  (forall x y, 0 <= x < width S1 -> 0 <= y < height S1 ->
     rgbAt S1 x y = rgbAt S2 x y) ->
  structural V = true ->
  render atan2 S1 V = render atan2 S2 V.
Proof.
  intros Hwf1 Hwf2 Ew Eh Hsame HV.
  assert (Hrgb : forall p c, 0 <= p < width S1 * height S1 -> 0 <= c <= 2 ->
            get (data S1) (p * 4 + c) = get (data S2) (p * 4 + c)).
  { intros p c Hp Hc. pose proof Hwf1 as [Hw Hh _ _].
    assert (Hx : 0 <= p mod width S1 < width S1)
      by (apply Z.mod_pos_bound; lia).
    assert (Hy : 0 <= p / width S1 < height S1).
    { split; [apply Z.div_pos; lia|]. apply Z.div_lt_upper_bound; lia. }
    assert (Ep : p / width S1 * width S1 + p mod width S1 = p)
      by (pose proof (Z.div_mod p (width S1)); lia).
    pose proof (Hsame _ _ Hx Hy) as E.
    destruct (rgbAt_in_range S1 _ _ Hwf1 Hx Hy) as (r & g & b & E1 & _).
    rewrite E1 in E. symmetry in E.
    apply rgbAt_channels in E1, E. unfold channel in E1, E.
    rewrite <- Ew in E. rewrite Ep in E1, E.
    destruct E1 as (A0 & A1 & A2), E as (B0 & B1 & B2).
    assert (c = 0 \/ c = 1 \/ c = 2) as [-> | [-> | ->]] by lia; congruence. }
  destruct Hwf1 as [Hw Hh _ _].
  pose proof (conv_same_rgb atan2 _ _ _ _ Hw Hh Hrgb) as Ec.
  pose proof (wavelet_same_rgb _ _ _ _ Hw Hh Hrgb) as Ev.
  destruct S1 as [w1 h1 d1], S2 as [w2 h2 d2]. cbn [width height data] in *.
  subst w2 h2.
  destruct V; try discriminate HV; cbn [render perPixel structural];
    cbn [width height data]; rewrite ?Ec, ?Ev; reflexivity.
Qed.

(** X13: when the width and the height are even the wavelet view tiles
    its output in four quadrants: the block of source pixels at
    [(2i, 2j)] puts its LL coefficient at [(i, j)], LH at
    [(i + width/2, j)], HL at [(i, j + height/2)] and HH at
    [(i + width/2, j + height/2)], each as a grey pixel, and no
    coordinate is clamped. *)
Theorem wavelet_quadrants (S : ImageData) (i j : Z) :
  wf S -> Z.even (width S) = true -> Z.even (height S) = true ->
  0 <= i < width S / 2 -> 0 <= j < height S / 2 ->
  match haar (grayAt S (2 * i) (2 * j)) (grayAt S (2 * i + 1) (2 * j))
             (grayAt S (2 * i) (2 * j + 1))
             (grayAt S (2 * i + 1) (2 * j + 1)) with
  | (LL, LH, HL, HH) =>
      let out := render atan2 S WAVELET in
      rgbAt out i j = greyPixel LL /\
      rgbAt out (i + width S / 2) j = greyPixel LH /\
      rgbAt out i (j + height S / 2) = greyPixel HL /\
      rgbAt out (i + width S / 2) (j + height S / 2) = greyPixel HH
  end.
Proof.
  intros [Hw Hh Hlen Hb] Evw Evh Hi Hj.
  apply Z.even_spec in Evw, Evh. destruct Evw as [kw Ekw], Evh as [kh Ekh].
  assert (Ew : width S = 2 * (width S / 2)) by div_lia.
  assert (Eh : height S = 2 * (height S / 2)) by div_lia.
  pose proof (createImageData_sized _ _ Hw Hh) as Hs.
  pose proof (wavelet_block (width S) (height S) (data S) Hw Ew Eh i j _
                Hi Hj Hs) as B.
  cbv beta in B.
  rewrite !(getPixelIndex_inside _ _ Hw Ew) in B by lia.
  unfold grayAt.
  destruct (haar _ _ _ _) as [[[LL LH] HL] HH].
  destruct B as (B1 & B2 & B3 & B4). cbv zeta.
  unfold greyPixel.
  repeat split; apply rgbAt_channels; unfold channel;
    cbn [render perPixel structural width data];
    repeat split;
    first [apply B1 | apply B2 | apply B3 | apply B4]; lia.
Qed.

End StructuralTheorems.

Section EdgeCases.

Variable atan2 : float -> float -> float.

(** X14: on an image of a single pixel every neighbour is that pixel, so
    that the views that look for edges see a flat field: the gradient
    magnitude, skeleton and gradient direction views are black, the
    zero-crossing view is the grey 128 and the blueprint view is the ink
    blue. *)
Theorem single_pixel_views (S : ImageData) :
  wf S -> width S = 1 -> height S = 1 ->
  rgbAt (render atan2 S GRADIENT_MAGNITUDE) 0 0 = Some (0, 0, 0) /\
  rgbAt (render atan2 S ZERO_CROSSING) 0 0 = Some (128, 128, 128) /\
  rgbAt (render atan2 S SKELETON) 0 0 = Some (0, 0, 0) /\
  rgbAt (render atan2 S BLUEPRINT) 0 0 = Some (30, 64, 175) /\
  rgbAt (render atan2 S GRADIENT_DIRECTION) 0 0 = Some (0, 0, 0).
Proof.
  intros Hwf Ew Eh.
  assert (Hx : 0 <= 0 < width S) by lia.
  assert (Hy : 0 <= 0 < height S) by lia.
  destruct (rgbAt_in_range S 0 0 Hwf Hx Hy) as (r & g & b & E & _).
  assert (Hu : uniform S r g b).
  { intros x y Hx' Hy'. assert (x = 0) as -> by lia.
    assert (y = 0) as -> by lia. now apply rgbAt_channels. }
  destruct (flat_edges atan2 S r g b 0 0 Hwf Hu Hx Hy)
    as (F1 & F2 & F3).
  pose proof (flat_channels atan2 S r g b 0 0) as F.
  repeat split; try assumption; apply rgbAt_channels; repeat split;
    apply F; (assumption || lia).
Qed.

Lemma max_ok_byte (a b : Z) :
  byte a -> byte b ->
  Math_max (Z2F a / 255) (Z2F b / 255) = (Z2F (Z.max a b) / 255)%float.
Proof.
  assert (H : forallb (fun a => forallb (max_ok a) bytesZ) bytesZ = true)
    by (vm_compute; reflexivity).
  intros Ha Hb. rewrite forallb_forall in H.
  specialize (H a (bytesZ_In a Ha)). rewrite forallb_forall in H.
  specialize (H b (bytesZ_In b Hb)). unfold max_ok in H.
  now apply FloatAxioms.Leibniz.eqb_spec in H.
Qed.

Lemma value_ok_byte (v : Z) : byte v -> value_ok v = true.
Proof.
  assert (H : forallb value_ok bytesZ = true) by (vm_compute; reflexivity).
  rewrite forallb_forall in H. intros Hv. apply H, bytesZ_In, Hv.
Qed.

(** X15: the blue byte of the HSV view, which carries the value of the
    colour, is the largest of the three source bytes. *)
Theorem hsv_value_is_max (S : ImageData) (x y r g b : Z) :
  wf S -> 0 <= x < width S -> 0 <= y < height S ->
  rgbAt S x y = Some (r, g, b) ->
  exists hue sat,
    rgbAt (render atan2 S HSV) x y = Some (hue, sat, Z.max (Z.max r g) b).
Proof.
  intros Hwf Hx Hy Hrgb.
  destruct (rgbAt_in_range S x y Hwf Hx Hy) as (r0 & g0 & b0 & E & Br & Bg & Bb).
  rewrite Hrgb in E. injection E as <- <- <-.
  rewrite (rgbAt_perPixel atan2 S HSV x y r g b) by (assumption || reflexivity).
  cbn [pointColor]. unfold hsv, stored, Math_max3. cbn [fst snd].
  rewrite (max_ok_byte r g Br Bg).
  assert (Bm : byte (Z.max r g)) by (unfold byte in *; lia).
  rewrite (max_ok_byte _ b Bm Bb).
  assert (Bmm : byte (Z.max (Z.max r g) b)) by (unfold byte in *; lia).
  pose proof (value_ok_byte _ Bmm) as Hv. unfold value_ok in Hv.
  apply Z.eqb_eq in Hv. rewrite Hv.
  eexists. eexists. reflexivity.
Qed.

End EdgeCases.

Section WaveletOddWidth.

Lemma loop_values_bounds (stop step : Z) (fuel : nat) :
  0 < step ->
  forall i x, In x (loop_values fuel i stop step) -> i <= x < stop.
Proof.
  intros Hstep. induction fuel as [|fuel IH]; intros i x; simpl; [intros []|].
  destruct (Z.ltb_spec i stop); [|intros []].
  intros [<-|Hin]; [lia|]. apply IH in Hin. lia.
Qed.

(** A value of the loop variable splits the iterations into those before
    it and those after it, which are larger. *)
Lemma loop_values_split (stop step : Z) (fuel : nat) :
  0 < step ->
  forall i k, In k (loop_values fuel i stop step) ->
    exists l1 l2,
      loop_values fuel i stop step = l1 ++ k :: l2 /\
      forall x, In x l2 -> k < x /\ In x (loop_values fuel i stop step).
Proof.
  intros Hstep. induction fuel as [|fuel IH]; intros i k; simpl; [intros []|].
  destruct (Z.ltb_spec i stop); [|intros []].
  intros [<-|Hin].
  - exists [], (loop_values fuel (i + step) stop step). split; [reflexivity|].
    intros x Hx. split; [|now right].
    apply (loop_values_bounds stop step fuel Hstep) in Hx. lia.
  - destruct (IH _ _ Hin) as (l1 & l2 & E & Hl2).
    exists (i :: l1), l2. split; [now rewrite E|].
    intros x Hx. destruct (Hl2 x Hx). split; [assumption|now right].
Qed.

(** What the last write of [k] leaves holds at the end if the later
    iterations keep it. *)
Lemma fold_last_write {A K : Type} (f : A -> K -> A) (Pre Q : A -> Prop)
    (l1 l2 : list K) (k : K) :
  (forall k' a, Pre a -> Pre (f a k')) ->
  (forall a, Pre a -> Q (f a k)) ->
  (forall k' a, In k' l2 -> Pre a -> Q a -> Q (f a k')) ->
  forall a, Pre a -> Q (fold_left f (l1 ++ k :: l2) a).
Proof.
  intros Hpre Hk Hkeep a Ha. rewrite fold_left_app. simpl.
  assert (Ha1 : Pre (fold_left f l1 a)).
  { apply fold_inv; [exact Ha|]. intros k' a' _. apply Hpre. }
  apply (fold_inv f (fun o => Pre o /\ Q o)).
  - split; [now apply Hpre|now apply Hk].
  - intros k' a' Hin [Ha' Hq]. split; [now apply Hpre|now apply Hkeep].
Qed.

Variables (w h : Z) (d : list Z).

Let sized (out : list Z) : Prop := Z.of_nat (length out) = w * h * 4.

Let greyAt (out : list Z) (a b : Z) (v : float) : Prop :=
  forall c, 0 <= c <= 2 ->
    get out ((b * w + a) * 4 + c) = Some (ToUint8Clamp v).

Lemma grey_set out a b v :
  sized out -> 0 <= a < w -> 0 <= b < h ->
  greyAt (storeGray out ((b * w + a) * 4) v) a b v.
Proof.
  intros Hs Ha Hb c Hc. pose proof (pixel_index_range w h a b Ha Hb).
  apply get_storeGray_rgb; unfold sized in Hs; lia.
Qed.

Lemma grey_keep out a b v a' b' v' :
  0 <= a < w -> 0 <= a' < w -> 0 <= b -> 0 <= b' ->
  a <> a' \/ b <> b' ->
  greyAt out a b v -> greyAt (storeGray out ((b' * w + a') * 4) v') a b v.
Proof.
  intros Ha Ha' Hb Hb' Hne Hg c Hc.
  assert (b' * w + a' <> b * w + a).
  { intros E. destruct (pixel_index_inj w a' b' a b Ha' Ha E). lia. }
  assert (0 <= b * w + a) by nia.
  rewrite get_storeGray_other by lia. now apply Hg.
Qed.

Hypotheses (Hw3 : 3 <= w) (Ow : w = 2 * (w / 2) + 1).
Hypotheses (Hh : 0 < h) (Eh : h = 2 * (h / 2)).

(** The LL coefficient of the last block of the block row [j]. *)
Let lastLL (j : Z) : float :=
  match haar (getGray d (getPixelIndex w h (w - 1) (2 * j)))
             (getGray d (getPixelIndex w h (w - 1 + 1) (2 * j)))
             (getGray d (getPixelIndex w h (w - 1) (2 * j + 1)))
             (getGray d (getPixelIndex w h (w - 1 + 1) (2 * j + 1))) with
  | (LL, _, _, _) => LL
  end.

Lemma waveletBody_last_block j out :
  0 <= j < h / 2 -> sized out ->
  greyAt (waveletBody w h d (w - 1) (2 * j) out) (w / 2) j (lastLL j).
Proof.
  intros Hj Hs. unfold lastLL, waveletBody.
  destruct (haar _ _ _ _) as [[[LL LH] HL] HH].
  assert (Sz : forall o idx v, sized o -> sized (storeGray o idx v)).
  { intros o idx v Ho. unfold sized. now rewrite length_storeGray. }
  unfold idxLL, idxLH, idxHL, idxHH.
  replace ((w - 1) / 2) with (w / 2) by div_lia.
  replace (2 * j / 2) with j by div_lia.
  do 3 (apply grey_keep; [div_lia..|]).
  apply grey_set; [exact Hs|div_lia..].
Qed.

Lemma waveletBody_later_row j x y out :
  0 <= j < h / 2 -> In x (range 0 w 2) -> In y (range 0 h 2) -> 2 * j < y ->
  greyAt out (w / 2) j (lastLL j) ->
  greyAt (waveletBody w h d x y out) (w / 2) j (lastLL j).
Proof.
  intros Hj Hx Hy Hlt Hq. apply range_2 in Hx, Hy.
  destruct Hx as [Hx Ex], Hy as [Hy Ey].
  unfold waveletBody. destruct (haar _ _ _ _) as [[[LL LH] HL] HH].
  unfold idxLL, idxLH, idxHL, idxHH.
  do 4 (apply grey_keep; [div_lia..|]). exact Hq.
Qed.

Lemma wavelet_odd_column j out :
  0 <= j < h / 2 -> sized out ->
  greyAt (wavelet w h d out) (w / 2) j (lastLL j).
Proof.
  intros Hj Hs. unfold wavelet. rewrite for_fold.
  assert (Hy : In (2 * j) (range 0 h 2)) by (apply range_2; div_lia).
  assert (Hx : In (w - 1) (range 0 w 2)) by (apply range_2; div_lia).
  destruct (loop_values_split h 2 _ ltac:(lia) _ _ Hy) as (r1 & r2 & Er & Hr2).
  destruct (loop_values_split w 2 _ ltac:(lia) _ _ Hx) as (c1 & c2 & Ec & Hc2).
  fold (range 0 h 2) in Er, Hr2. fold (range 0 w 2) in Ec, Hc2.
  rewrite Er.
  apply (fold_last_write _ sized (fun o => greyAt o (w / 2) j (lastLL j)));
    [| | |exact Hs].
  - intros y' a Ha. rewrite for_fold. apply fold_inv; [exact Ha|].
    intros x' a' _. apply waveletBody_sized.
  - intros a Ha. rewrite for_fold, Ec.
    apply (fold_last_write _ sized (fun o => greyAt o (w / 2) j (lastLL j)));
      [| | |exact Ha].
    + intros x' a'. apply waveletBody_sized.
    + intros a' Ha'. now apply waveletBody_last_block.
    + intros x' a' Hx' _ _. destruct (Hc2 x' Hx') as [Hgt Hin].
      apply range_2 in Hin. lia.
  - intros y' a Hy' Ha Hq. destruct (Hr2 y' Hy') as [Hgt Hin].
    rewrite for_fold.
    apply (fold_inv _ (fun o => sized o /\ greyAt o (w / 2) j (lastLL j)));
      [now split|].
    intros x' a' Hx' [Ha' Hq']. split.
    + now apply waveletBody_sized.
    + now apply waveletBody_later_row.
Qed.

End WaveletOddWidth.

Section OddWidthTheorem.

Variable atan2 : float -> float -> float.

(** X16: for a source of odd width at least 3 and even height, the output
    column [floor (width / 2)], the first column of the LH quadrant, holds
    in its upper half the LL coefficients of the last block of each block
    row, written over the LH coefficients of the first block; the last
    block reads the last source column twice, its right neighbour being
    clamped. *)
Theorem wavelet_odd_width_column (S : ImageData) (j : Z) :
  wf S -> Z.odd (width S) = true -> 3 <= width S ->
  Z.even (height S) = true -> 0 <= j < height S / 2 ->
  match haar (grayAt S (width S - 1) (2 * j)) (grayAt S (width S - 1) (2 * j))
             (grayAt S (width S - 1) (2 * j + 1))
             (grayAt S (width S - 1) (2 * j + 1)) with
  | (LL, _, _, _) =>
      rgbAt (render atan2 S WAVELET) (width S / 2) j = greyPixel LL
  end.
Proof.
  intros [Hw Hh Hlen Hb] Odd Hw3 Even Hj.
  apply Z.odd_spec in Odd. apply Z.even_spec in Even.
  destruct Odd as [kw Ekw], Even as [kh Ekh].
  assert (Ow : width S = 2 * (width S / 2) + 1) by div_lia.
  assert (Eh : height S = 2 * (height S / 2)) by div_lia.
  pose proof (createImageData_sized _ _ Hw Hh) as Hs.
  pose proof (wavelet_odd_column (width S) (height S) (data S) Hw3 Ow Hh Eh j _
                Hj Hs) as B.
  cbv beta in B. unfold getPixelIndex in B.
  replace (Z.max 0 (Z.min (width S - 1) (width S - 1))) with (width S - 1)
    in B by lia.
  replace (Z.max 0 (Z.min (width S - 1) (width S - 1 + 1))) with (width S - 1)
    in B by lia.
  replace (Z.max 0 (Z.min (height S - 1) (2 * j))) with (2 * j) in B by lia.
  replace (Z.max 0 (Z.min (height S - 1) (2 * j + 1))) with (2 * j + 1)
    in B by lia.
  unfold grayAt. destruct (haar _ _ _ _) as [[[LL LH] HL] HH].
  unfold greyPixel. apply rgbAt_channels. unfold channel.
  cbn [render perPixel structural width data].
  repeat split; apply B; lia.
Qed.

End OddWidthTheorem.

Section DirectionMask.

Variable atan2 : float -> float -> float.

(** X17: the gradient direction view masks weak gradients: a pixel whose
    Sobel magnitude is below 20 is black, whatever angle [Math.atan2]
    returns for it. *)
Theorem direction_masked (S : ImageData) (x y : Z) :
  wf S -> 0 <= x < width S -> 0 <= y < height S ->
  (magnitude (width S) (height S) (data S) x y <? 20)%float = true ->
  rgbAt (render atan2 S GRADIENT_DIRECTION) x y = Some (0, 0, 0).
Proof.
  intros Hwf Hx Hy Hm.
  rewrite rgbAt_conv by (assumption || reflexivity || discriminate).
  cbn [convColor]. unfold gradientDirection. unfold magnitude in Hm.
  destruct (sobel (width S) (height S) (data S) x y) as [gx gy].
  cbv zeta.
  destruct (match rem6 _ with Some _ => _ | None => _ end) as [[r' g'] b'].
  rewrite Hm. reflexivity.
Qed.

End DirectionMask.

(** ** The overlapping writes of the wavelet view *)

Section OddOverlap.

Variable atan2 : float -> float -> float.

(** The body of the block loop is its four stores, in the order LL, LH,
    HL, HH. *)
Lemma waveletBody_stores (w h : Z) (d : list Z) (x y : Z) (out : list Z) :
  waveletBody w h d x y out
  = match blockCoefficients w h d x y with
    | (LL, LH, HL, HH) =>
        storeGray
          (storeGray
             (storeGray (storeGray out (idxLL w h x y) LL) (idxLH w h x y) LH)
             (idxHL w h x y) HL)
          (idxHH w h x y) HH
    end.
Proof.
  unfold waveletBody, blockCoefficients.
  destruct (haar _ _ _ _) as [[[LL LH] HL] HH]. reflexivity.
Qed.

(** A grey store at the pixel [(a, b)] of a buffer leaves that grey there. *)
Lemma rgbAt_storeGray (w h : Z) (out : list Z) (a b : Z) (v : float) :
  Z.of_nat (length out) = w * h * 4 -> 0 <= a < w -> 0 <= b < h ->
  rgbAt (mkImageData w h (storeGray out ((b * w + a) * 4) v)) a b
  = greyPixel v.
Proof.
  intros Hs Ha Hb. pose proof (pixel_index_range w h a b Ha Hb).
  apply rgbAt_channels. unfold channel. cbn [width data].
  repeat split; apply get_storeGray_rgb; lia.
Qed.

(** C10: the wavelet view of an image of odd width is produced like any
    other (its buffer has the dimensions of the source and holds bytes).
    The last iteration of the block loop of every block row is the body
    at [x = width - 1]; that body first stores its LL coefficient, and the
    store makes the pixel in the output column [(width - 1) / 2], which is
    [floor (width / 2)], the grey LL; the body at [x = 0] of the same row
    stores its LH coefficient at that very pixel, so that the LL and LH
    regions overlap; and where the width is at least 3 and the height is
    even, the LL of the last block is what the view shows there.  The same
    holds down the rows for an odd height, with HL. *)
Theorem wavelet_odd_overlap (S : ImageData) :
  wf S ->
  let w := width S in
  let h := height S in
  let d := data S in
  wf (render atan2 S WAVELET) /\
  (Z.odd w = true ->
   last (range 0 w 2) = Some (w - 1) /\
   (w - 1) / 2 = w / 2 /\
   In 0 (range 0 w 2) /\
   (forall y, idxLL w h (w - 1) y = idxLH w h 0 y /\
              idxLL w h (w - 1) y = (y / 2 * w + w / 2) * 4) /\
   (exists before,
      range 0 w 2 = before ++ [w - 1] /\
      forall y out,
        for_ 0 w 2 (fun x => waveletBody w h d x y) out
        = waveletBody w h d (w - 1) y
            (fold_left (fun o x => waveletBody w h d x y o) before out)) /\
   (forall y out,
      In y (range 0 h 2) -> Z.of_nat (length out) = w * h * 4 ->
      match blockCoefficients w h d (w - 1) y,
            blockCoefficients w h d 0 y with
      | (LL, LH, HL, HH), (LL0, LH0, HL0, HH0) =>
          let first := storeGray out (idxLL w h (w - 1) y) LL in
          let second :=
            storeGray (storeGray out (idxLL w h 0 y) LL0)
              (idxLH w h 0 y) LH0 in
          waveletBody w h d (w - 1) y out
          = storeGray
              (storeGray (storeGray first (idxLH w h (w - 1) y) LH)
                 (idxHL w h (w - 1) y) HL)
              (idxHH w h (w - 1) y) HH /\
          rgbAt (mkImageData w h first) (w / 2) (y / 2) = greyPixel LL /\
          waveletBody w h d 0 y out
          = storeGray (storeGray second (idxHL w h 0 y) HL0)
              (idxHH w h 0 y) HH0 /\
          rgbAt (mkImageData w h second) (w / 2) (y / 2) = greyPixel LH0
      end) /\
   (3 <= w -> Z.even h = true ->
    forall j, 0 <= j < h / 2 ->
      match blockCoefficients w h d (w - 1) (2 * j) with
      | (LL, _, _, _) =>
          rgbAt (render atan2 S WAVELET) (w / 2) j = greyPixel LL
      end)) /\
  (Z.odd h = true ->
   last (range 0 h 2) = Some (h - 1) /\
   (h - 1) / 2 = h / 2 /\
   In 0 (range 0 h 2) /\
   (forall x, idxLL w h x (h - 1) = idxHL w h x 0 /\
              idxLL w h x (h - 1) = (h / 2 * w + x / 2) * 4) /\
   (exists before,
      range 0 h 2 = before ++ [h - 1] /\
      forall out,
        wavelet w h d out
        = for_ 0 w 2 (fun x => waveletBody w h d x (h - 1))
            (fold_left
               (fun o y => for_ 0 w 2 (fun x => waveletBody w h d x y) o)
               before out)) /\
   (forall x out,
      In x (range 0 w 2) -> Z.of_nat (length out) = w * h * 4 ->
      match blockCoefficients w h d x (h - 1),
            blockCoefficients w h d x 0 with
      | (LL, LH, HL, HH), (LL0, LH0, HL0, HH0) =>
          let first := storeGray out (idxLL w h x (h - 1)) LL in
          let third :=
            storeGray
              (storeGray (storeGray out (idxLL w h x 0) LL0)
                 (idxLH w h x 0) LH0)
              (idxHL w h x 0) HL0 in
          waveletBody w h d x (h - 1) out
          = storeGray
              (storeGray (storeGray first (idxLH w h x (h - 1)) LH)
                 (idxHL w h x (h - 1)) HL)
              (idxHH w h x (h - 1)) HH /\
          rgbAt (mkImageData w h first) (x / 2) (h / 2) = greyPixel LL /\
          waveletBody w h d x 0 out
          = storeGray third (idxHH w h x 0) HH0 /\
          rgbAt (mkImageData w h third) (x / 2) (h / 2) = greyPixel HL0
      end)).
Proof.
  intros [Hw Hh Hlen Hb] w h d. subst w h d. split; [|split].
  - split; cbn [render perPixel structural width height data];
      try assumption.
    + apply wavelet_sized, createImageData_sized; assumption.
    + apply wavelet_bytes, createImageData_bytes.
  - intros Hodd. rewrite Z.odd_spec in Hodd. destruct Hodd as [k Hk].
    assert (E : (width S - 1) / 2 = width S / 2) by div_lia.
    assert (L : last (range 0 (width S) 2) = Some (width S - 1)).
    { unfold range. rewrite loop_values_last by lia. f_equal. div_lia. }
    split; [exact L|]. split; [exact E|]. split; [apply range_2; div_lia|].
    split; [|split; [|split]].
    + intros y. unfold idxLL, idxLH. rewrite E.
      replace (0 / 2) with 0 by reflexivity. split; f_equal; lia.
    + destruct (proj1 (last_Some _ _) L) as [before Eb].
      exists before. split; [exact Eb|]. intros y out.
      rewrite for_fold, Eb, fold_left_app. reflexivity.
    + intros y out Hy Hs. apply range_2 in Hy. destruct Hy as [Hy Ey].
      rewrite !waveletBody_stores.
      destruct (blockCoefficients _ _ _ (width S - 1) y)
        as [[[LL LH] HL] HH].
      destruct (blockCoefficients _ _ _ 0 y) as [[[LL0 LH0] HL0] HH0].
      cbv zeta. split; [reflexivity|]. split; [|split; [reflexivity|]].
      * unfold idxLL. rewrite E.
        apply rgbAt_storeGray; [exact Hs|div_lia..].
      * unfold idxLH. change (0 / 2 + width S / 2) with (width S / 2).
        apply rgbAt_storeGray; [now rewrite length_storeGray|div_lia..].
    + intros Hw3 Even j Hj. apply Z.even_spec in Even.
      destruct Even as [kh Ekh].
      assert (Ow : width S = 2 * (width S / 2) + 1) by div_lia.
      assert (Eh : height S = 2 * (height S / 2)) by div_lia.
      pose proof (createImageData_sized _ _ Hw Hh) as Hs.
      pose proof (wavelet_odd_column (width S) (height S) (data S)
                    Hw3 Ow Hh Eh j _ Hj Hs) as B.
      cbv beta in B. unfold blockCoefficients.
      destruct (haar _ _ _ _) as [[[LL LH] HL] HH].
      unfold greyPixel. apply rgbAt_channels. unfold channel.
      cbn [render perPixel structural width data].
      repeat split; apply B; lia.
  - intros Hodd. rewrite Z.odd_spec in Hodd. destruct Hodd as [k Hk].
    assert (E : (height S - 1) / 2 = height S / 2) by div_lia.
    assert (L : last (range 0 (height S) 2) = Some (height S - 1)).
    { unfold range. rewrite loop_values_last by lia. f_equal. div_lia. }
    split; [exact L|]. split; [exact E|]. split; [apply range_2; div_lia|].
    split; [|split].
    + intros x. unfold idxLL, idxHL. rewrite E.
      replace (0 / 2) with 0 by reflexivity. split; f_equal; lia.
    + destruct (proj1 (last_Some _ _) L) as [before Eb].
      exists before. split; [exact Eb|]. intros out.
      unfold wavelet. rewrite for_fold, Eb, fold_left_app. reflexivity.
    + intros x out Hx Hs. apply range_2 in Hx. destruct Hx as [Hx Ex].
      rewrite !waveletBody_stores.
      destruct (blockCoefficients _ _ _ x (height S - 1))
        as [[[LL LH] HL] HH].
      destruct (blockCoefficients _ _ _ x 0) as [[[LL0 LH0] HL0] HH0].
      cbv zeta. split; [reflexivity|]. split; [|split; [reflexivity|]].
      * unfold idxLL. rewrite E.
        apply rgbAt_storeGray; [exact Hs|div_lia..].
      * unfold idxHL.
        change (0 / 2 + height S / 2) with (height S / 2).
        apply rgbAt_storeGray; [now rewrite !length_storeGray|div_lia..].
Qed.

End OddOverlap.

(** ** The further properties at sample inputs *)

Ltac wf_sample :=
  split; [reflexivity..|]; cbn;
  repeat (constructor; [unfold byte; lia|]); constructor.

Lemma render_wf_witness :
  wf image2 /\
  wf (render atan2_const image2 ECO) /\
  width (render atan2_const image2 ECO) = width image2 /\
  height (render atan2_const image2 ECO) = height image2.
Proof.
  assert (W : wf image2) by wf_sample.
  split; [exact W|]. exact (render_wf atan2_const image2 ECO W).
Defined.

Lemma per_pixel_view_witness :
  wf image2 /\ perPixel XRAY = true /\ rgbAt image2 1 0 = Some (150, 150, 150) /\
  rgbAt (render atan2_const image2 XRAY) 1 0
  = Some (stored (pointColor XRAY (Z2F 150) (Z2F 150) (Z2F 150))).
Proof.
  assert (W : wf image2) by wf_sample.
  split; [exact W|]. split; [reflexivity|]. split; [reflexivity|].
  apply (per_pixel_view atan2_const image2 XRAY 1 0 150 150 150 W);
    [reflexivity|cbn; lia|cbn; lia|reflexivity].
Defined.

Lemma binary_black_or_white_witness :
  wf image2 /\ rgbAt image2 1 0 = Some (150, 150, 150) /\
  rgbAt (render atan2_const image2 BINARY) 1 0
  = Some (if (128 <? luminance 150 150 150)%float
          then (255, 255, 255) else (0, 0, 0)).
Proof.
  assert (W : wf image2) by wf_sample.
  split; [exact W|]. split; [reflexivity|].
  apply (binary_black_or_white atan2_const image2 1 0 150 150 150 W);
    [cbn; lia|cbn; lia|reflexivity].
Defined.

Lemma heatmap_red_or_blue_zero_witness :
  wf image2 /\
  rgbAt (render atan2_const image2 HEATMAP) 0 0 = Some (0, 200, 55) /\
  (0 = 0 \/ 55 = 0).
Proof.
  assert (W : wf image2) by wf_sample.
  split; [exact W|]. split; [vm_compute; reflexivity|].
  apply (heatmap_red_or_blue_zero atan2_const image2 0 0 0 200 55 W);
    [cbn; lia|cbn; lia|vm_compute; reflexivity].
Defined.

Lemma eco_tint_witness :
  wf image2 /\ rgbAt image2 1 1 = Some (200, 200, 200) /\
  rgbAt (render atan2_const image2 ECO) 1 1
  = Some ((8 * 200 + 5) / 10, Z.min 255 ((12 * 200 + 5) / 10),
          (8 * 200 + 5) / 10).
Proof.
  assert (W : wf image2) by wf_sample.
  split; [exact W|]. split; [reflexivity|].
  apply (eco_tint atan2_const image2 1 1 200 200 200 W);
    [cbn; lia|cbn; lia|reflexivity].
Defined.

Lemma grey_views_idempotent_witness :
  wf image2 /\ (BINARY = GRAYSCALE \/ BINARY = BINARY) /\
  render atan2_const (render atan2_const image2 BINARY) BINARY
  = render atan2_const image2 BINARY.
Proof.
  assert (W : wf image2) by wf_sample.
  split; [exact W|]. split; [right; reflexivity|].
  apply (grey_views_idempotent atan2_const image2 BINARY W).
  right; reflexivity.
Defined.

Lemma hsv_of_grey_witness :
  wf image2 /\ rgbAt image2 0 1 = Some (50, 50, 50) /\
  rgbAt (render atan2_const image2 HSV) 0 1 = Some (0, 0, 50).
Proof.
  assert (W : wf image2) by wf_sample.
  split; [exact W|]. split; [reflexivity|].
  apply (hsv_of_grey atan2_const image2 0 1 50 W);
    [cbn; lia|cbn; lia|reflexivity].
Defined.

Lemma achromatic_views_witness :
  wf image3 /\ achromatic WAVELET = true /\
  exists v, rgbAt (render atan2_const image3 WAVELET) 2 0 = Some (v, v, v).
Proof.
  assert (W : wf image3) by wf_sample.
  split; [exact W|]. split; [reflexivity|].
  apply (achromatic_views atan2_const image3 WAVELET 2 0 W);
    [reflexivity|cbn; lia|cbn; lia].
Defined.

Lemma blueprint_two_colours_witness :
  wf image2 /\
  rgbAt (render atan2_const image2 BLUEPRINT) 0 0
  = Some (if (30 <? magnitude (width image2) (height image2)
                      (data image2) 0 0)%float
          then (255, 255, 255) else (30, 64, 175)).
Proof.
  assert (W : wf image2) by wf_sample.
  split; [exact W|].
  apply (blueprint_two_colours atan2_const image2 0 0 W); cbn; lia.
Defined.

Lemma skeleton_within_blueprint_witness :
  wf image2 /\
  rgbAt (render atan2_const image2 SKELETON) 0 0 = Some (255, 255, 255) /\
  rgbAt (render atan2_const image2 BLUEPRINT) 0 0 = Some (255, 255, 255).
Proof.
  assert (W : wf image2) by wf_sample.
  split; [exact W|]. split; [vm_compute; reflexivity|].
  apply (skeleton_within_blueprint atan2_const image2 0 0 W);
    [cbn; lia|cbn; lia|vm_compute; discriminate].
Defined.

Lemma flat_field_has_no_edges_witness :
  wf pixel1 /\ uniform pixel1 10 20 30 /\
  rgbAt (render atan2_const pixel1 SKELETON) 0 0 = Some (0, 0, 0) /\
  rgbAt (render atan2_const pixel1 BLUEPRINT) 0 0 = Some (30, 64, 175) /\
  rgbAt (render atan2_const pixel1 GRADIENT_DIRECTION) 0 0 = Some (0, 0, 0).
Proof.
  assert (W : wf pixel1) by wf_sample.
  assert (U : uniform pixel1 10 20 30).
  { intros x y Hx Hy. cbn in Hx, Hy.
    assert (x = 0) as -> by lia. assert (y = 0) as -> by lia.
    repeat split; reflexivity. }
  split; [exact W|]. split; [exact U|].
  apply (flat_field_has_no_edges atan2_const pixel1 10 20 30 0 0 W U);
    cbn; lia.
Defined.

Lemma structural_ignores_alpha_witness :
  wf image2 /\ wf image2_opaque /\
  width image2 = width image2_opaque /\
  height image2 = height image2_opaque /\
  render atan2_const image2 FEATURE_MAP
  = render atan2_const image2_opaque FEATURE_MAP.
Proof.
  assert (W : wf image2) by wf_sample.
  assert (W' : wf image2_opaque) by wf_sample.
  split; [exact W|]. split; [exact W'|]. split; [reflexivity|].
  split; [reflexivity|].
  apply (structural_ignores_alpha atan2_const image2 image2_opaque
           FEATURE_MAP W W' eq_refl eq_refl); [|reflexivity].
  intros x y Hx Hy. cbn in Hx, Hy.
  assert (x = 0 \/ x = 1) as [-> | ->] by lia;
    assert (y = 0 \/ y = 1) as [-> | ->] by lia; reflexivity.
Defined.

Lemma wavelet_quadrants_witness :
  wf image2 /\ Z.even (width image2) = true /\
  Z.even (height image2) = true /\
  match haar (grayAt image2 (2 * 0) (2 * 0))
             (grayAt image2 (2 * 0 + 1) (2 * 0))
             (grayAt image2 (2 * 0) (2 * 0 + 1))
             (grayAt image2 (2 * 0 + 1) (2 * 0 + 1)) with
  | (LL, LH, HL, HH) =>
      let out := render atan2_const image2 WAVELET in
      rgbAt out 0 0 = greyPixel LL /\
      rgbAt out (0 + width image2 / 2) 0 = greyPixel LH /\
      rgbAt out 0 (0 + height image2 / 2) = greyPixel HL /\
      rgbAt out (0 + width image2 / 2) (0 + height image2 / 2) = greyPixel HH
  end.
Proof.
  assert (W : wf image2) by wf_sample.
  split; [exact W|]. split; [reflexivity|]. split; [reflexivity|].
  apply (wavelet_quadrants atan2_const image2 0 0 W eq_refl eq_refl);
    change (0 <= 0 < 1); lia.
Defined.

Lemma single_pixel_views_witness :
  wf pixel1 /\ width pixel1 = 1 /\ height pixel1 = 1 /\
  rgbAt (render atan2_const pixel1 GRADIENT_MAGNITUDE) 0 0 = Some (0, 0, 0) /\
  rgbAt (render atan2_const pixel1 ZERO_CROSSING) 0 0 = Some (128, 128, 128) /\
  rgbAt (render atan2_const pixel1 SKELETON) 0 0 = Some (0, 0, 0) /\
  rgbAt (render atan2_const pixel1 BLUEPRINT) 0 0 = Some (30, 64, 175) /\
  rgbAt (render atan2_const pixel1 GRADIENT_DIRECTION) 0 0 = Some (0, 0, 0).
Proof.
  assert (W : wf pixel1) by wf_sample.
  split; [exact W|]. split; [reflexivity|]. split; [reflexivity|].
  exact (single_pixel_views atan2_const pixel1 W eq_refl eq_refl).
Defined.

Lemma hsv_value_is_max_witness :
  wf pixel1 /\ rgbAt pixel1 0 0 = Some (10, 20, 30) /\
  exists hue sat,
    rgbAt (render atan2_const pixel1 HSV) 0 0
    = Some (hue, sat, Z.max (Z.max 10 20) 30).
Proof.
  assert (W : wf pixel1) by wf_sample.
  split; [exact W|]. split; [reflexivity|].
  apply (hsv_value_is_max atan2_const pixel1 0 0 10 20 30 W);
    [cbn; lia|cbn; lia|reflexivity].
Defined.

Lemma wavelet_odd_width_column_witness :
  wf image3_tall /\ Z.odd (width image3_tall) = true /\
  3 <= width image3_tall /\ Z.even (height image3_tall) = true /\
  match haar (grayAt image3_tall (width image3_tall - 1) (2 * 0))
             (grayAt image3_tall (width image3_tall - 1) (2 * 0))
             (grayAt image3_tall (width image3_tall - 1) (2 * 0 + 1))
             (grayAt image3_tall (width image3_tall - 1) (2 * 0 + 1)) with
  | (LL, _, _, _) =>
      rgbAt (render atan2_const image3_tall WAVELET)
        (width image3_tall / 2) 0 = greyPixel LL
  end.
Proof.
  assert (W : wf image3_tall) by wf_sample.
  split; [exact W|]. split; [reflexivity|]. split; [cbn; lia|].
  split; [reflexivity|].
  apply (wavelet_odd_width_column atan2_const image3_tall 0 W eq_refl);
    [cbn; lia|reflexivity|change (0 <= 0 < 1); lia].
Defined.

Lemma direction_masked_witness :
  wf pixel1 /\
  (magnitude (width pixel1) (height pixel1) (data pixel1) 0 0 <? 20)%float
  = true /\
  rgbAt (render atan2_const pixel1 GRADIENT_DIRECTION) 0 0 = Some (0, 0, 0).
Proof.
  assert (W : wf pixel1) by wf_sample.
  split; [exact W|]. split; [vm_compute; reflexivity|].
  apply (direction_masked atan2_const pixel1 0 0 W);
    [cbn; lia|cbn; lia|vm_compute; reflexivity].
Defined.

Lemma wavelet_odd_overlap_witness :
  wf image3 /\
  (let w := width image3 in
  let h := height image3 in
  let d := data image3 in
  wf (render atan2_const image3 WAVELET) /\
  (Z.odd w = true ->
   last (range 0 w 2) = Some (w - 1) /\
   (w - 1) / 2 = w / 2 /\
   In 0 (range 0 w 2) /\
   (forall y, idxLL w h (w - 1) y = idxLH w h 0 y /\
              idxLL w h (w - 1) y = (y / 2 * w + w / 2) * 4) /\
   (exists before,
      range 0 w 2 = before ++ [w - 1] /\
      forall y out,
        for_ 0 w 2 (fun x => waveletBody w h d x y) out
        = waveletBody w h d (w - 1) y
            (fold_left (fun o x => waveletBody w h d x y o) before out)) /\
   (forall y out,
      In y (range 0 h 2) -> Z.of_nat (length out) = w * h * 4 ->
      match blockCoefficients w h d (w - 1) y,
            blockCoefficients w h d 0 y with
      | (LL, LH, HL, HH), (LL0, LH0, HL0, HH0) =>
          let first := storeGray out (idxLL w h (w - 1) y) LL in
          let second :=
            storeGray (storeGray out (idxLL w h 0 y) LL0)
              (idxLH w h 0 y) LH0 in
          waveletBody w h d (w - 1) y out
          = storeGray
              (storeGray (storeGray first (idxLH w h (w - 1) y) LH)
                 (idxHL w h (w - 1) y) HL)
              (idxHH w h (w - 1) y) HH /\
          rgbAt (mkImageData w h first) (w / 2) (y / 2) = greyPixel LL /\
          waveletBody w h d 0 y out
          = storeGray (storeGray second (idxHL w h 0 y) HL0)
              (idxHH w h 0 y) HH0 /\
          rgbAt (mkImageData w h second) (w / 2) (y / 2) = greyPixel LH0
      end) /\
   (3 <= w -> Z.even h = true ->
    forall j, 0 <= j < h / 2 ->
      match blockCoefficients w h d (w - 1) (2 * j) with
      | (LL, _, _, _) =>
          rgbAt (render atan2_const image3 WAVELET) (w / 2) j = greyPixel LL
      end)) /\
  (Z.odd h = true ->
   last (range 0 h 2) = Some (h - 1) /\
   (h - 1) / 2 = h / 2 /\
   In 0 (range 0 h 2) /\
   (forall x, idxLL w h x (h - 1) = idxHL w h x 0 /\
              idxLL w h x (h - 1) = (h / 2 * w + x / 2) * 4) /\
   (exists before,
      range 0 h 2 = before ++ [h - 1] /\
      forall out,
        wavelet w h d out
        = for_ 0 w 2 (fun x => waveletBody w h d x (h - 1))
            (fold_left
               (fun o y => for_ 0 w 2 (fun x => waveletBody w h d x y) o)
               before out)) /\
   (forall x out,
      In x (range 0 w 2) -> Z.of_nat (length out) = w * h * 4 ->
      match blockCoefficients w h d x (h - 1),
            blockCoefficients w h d x 0 with
      | (LL, LH, HL, HH), (LL0, LH0, HL0, HH0) =>
          let first := storeGray out (idxLL w h x (h - 1)) LL in
          let third :=
            storeGray
              (storeGray (storeGray out (idxLL w h x 0) LL0)
                 (idxLH w h x 0) LH0)
              (idxHL w h x 0) HL0 in
          waveletBody w h d x (h - 1) out
          = storeGray
              (storeGray (storeGray first (idxLH w h x (h - 1)) LH)
                 (idxHL w h x (h - 1)) HL)
              (idxHH w h x (h - 1)) HH /\
          rgbAt (mkImageData w h first) (x / 2) (h / 2) = greyPixel LL /\
          waveletBody w h d x 0 out
          = storeGray third (idxHH w h x 0) HH0 /\
          rgbAt (mkImageData w h third) (x / 2) (h / 2) = greyPixel HL0
      end))).
Proof.
  assert (W : wf image3) by wf_sample.
  split; [exact W|].
  exact (wavelet_odd_overlap atan2_const image3 W).
Defined.
